(** * Query handlers: registry, selector resolution and the remote iterator bridge

    A shallow embedding of [src/common/QueryHandler.ts] together with the
    consumers of lazy sequences found in the test utilities
    ([Iterable.first], [Iterable.map]).

    Controller-side code is written in a state-and-exception monad over the
    state it touches: the remote world for the adapted handlers, the
    module-level [queryHandlers] map for the registry functions. *)

From stdpp Require Import base option list gmap strings.
From Stdlib Require Import Ascii ZArith Lia.

Set Warnings "-register-all".


(** ** JavaScript strings *)

Module JS.

(** The double quote character, as it appears in the error messages. *)
Definition dquote : string := String (Ascii.ascii_of_nat 34) EmptyString.

(** The character class [[a-zA-Z]]. *)
Definition isLetter (c : ascii) : bool :=
  let n := Ascii.nat_of_ascii c in
  ((97 <=? n) && (n <=? 122)) || ((65 <=? n) && (n <=? 90)).

(** Anchored matching of [^C+K]: one character of the class [cls], then
    either the continuation [k] on the rest or further characters of the
    class.  Every way of splitting the run is tried, as a backtracking
    matcher does. *)
Fixpoint plus_then (cls : ascii -> bool) (k : string -> bool) (s : string) : bool :=
  match s with
  | EmptyString => false
  | String c rest => cls c && (k rest || plus_then cls k rest)
  end.

Definition at_end (s : string) : bool :=
  match s with EmptyString => true | String _ _ => false end.

Definition starts_with (c : ascii) (s : string) : bool :=
  match s with EmptyString => false | String a _ => Ascii.eqb a c end.

(** Every character of [s] is a letter: the strings matched by [[a-zA-Z]*]. *)
Fixpoint all_letters (s : string) : bool :=
  match s with
  | EmptyString => true
  | String c rest => isLetter c && all_letters rest
  end.

(** [/^[a-zA-Z]+$/.test(s)] *)
Definition test_letters_only (s : string) : bool :=
  plus_then isLetter at_end s.

(** [/^[a-zA-Z]+\//.test(s)] *)
Definition test_letters_slash (s : string) : bool :=
  plus_then isLetter (starts_with "/"%char) s.

(** [s.indexOf(c)] for a one-character needle: the position of the first
    occurrence, or [-1]. *)
Fixpoint indexOf_from (c : ascii) (s : string) (i : Z) : Z :=
  match s with
  | EmptyString => (-1)%Z
  | String a rest => if Ascii.eqb a c then i else indexOf_from c rest (i + 1)%Z
  end.

Definition indexOf (c : ascii) (s : string) : Z := indexOf_from c s 0%Z.

(** Index normalisation of [String.prototype.slice]: a negative index
    counts from the end, and everything is clamped to [0 .. length]. *)
Definition clamp (len i : Z) : Z :=
  if (i <? 0)%Z then Z.max (len + i) 0 else Z.min i len.

(** [s.slice(start, end)]; [end_ = None] stands for an omitted argument. *)
Definition slice (s : string) (start : Z) (end_ : option Z) : string :=
  let len := Z.of_nat (String.length s) in
  let from := clamp len start in
  let to := match end_ with None => len | Some e => clamp len e end in
  String.substring (Z.to_nat from) (Z.to_nat (Z.max (to - from) 0)) s.

End JS.

(** ** The remote world *)

(** Values living in the target.  An iterable is described by what the
    successive calls of [next()] on its iterator complete with; an exhausted
    iterator keeps producing [undefined], as [iterator.next().value] does
    once [done] is reached. *)
Inductive Value : Type :=
| VUndefined
| VNull
| VNode (node : nat)
| VOther (tag : nat)
| VIterable (produce : nat -> Completion)
| VIterator (produce : nat -> Completion) (cursor : nat)
with Completion : Type :=
| Normal (value : Value)
| Throw (reason : string).

Definition isNode (v : Value) : bool :=
  match v with VNode _ => true | _ => false end.

(** The iterator over a finite list of values. *)
Definition of_list (items : list Value) : nat -> Completion :=
  fun i => Normal (nth i items VUndefined).

(** [new Error(message)] *)
Record Error := { message : string }.

Inductive Result (A : Type) : Type :=
| Ok (a : A)
| Thrown (e : Error).
Arguments Ok {A} a.
Arguments Thrown {A} e.

(** A controller-side handle on a remote object.  [isElementHandle] tells an
    [ElementHandle] from a plain [JSHandle]. *)
Record JSHandle := { remoteObjectId : nat; isElementHandle : bool }.

Inductive Event :=
| Evaluated (receiver result : nat)
| EvalFailed (receiver : nat)
| Disposed (handle : nat).

(** The state of the RemoteExecutor: the remote objects that live handles
    refer to, the next unused handle identifier, and the calls made so far
    in chronological order. *)
Record World := {
  heap : gmap nat Value;
  fresh : nat;
  journal : list Event
}.

Definition M (A : Type) : Type := World -> Result A * World.

#[export] Instance M_ret : MRet M := fun A a w => (Ok a, w).
#[export] Instance M_bind : MBind M := fun A B f m w =>
  match m w with
  | (Ok a, w') => f a w'
  | (Thrown e, w') => (Thrown e, w')
  end.

(** A function shipped to the target: from the receiver object to the
    completion of the call and the receiver after it. *)
Definition PageFunction : Type := Value -> Completion * Value.

(** Modelled from the spec: [JSHandle.evaluateHandle], the RemoteExecutor's
    [execute(handle, fn, ...args) -> RemoteHandle].  It runs [fn] in the
    target against the object the handle refers to and wraps the result in
    a new handle, an element handle when the result is a DOM node; it fails
    when the handle was released or when [fn] throws. *)
Definition evaluateHandle (h : JSHandle) (fn : PageFunction) : M JSHandle :=
  fun w =>
    match heap w !! remoteObjectId h with
    | None =>
        (Thrown {| message := "JSHandle is disposed!" |},
         {| heap := heap w; fresh := fresh w;
            journal := journal w ++ [EvalFailed (remoteObjectId h)] |})
    | Some obj =>
        match fn obj with
        | (Normal v, obj') =>
            let r := fresh w in
            (Ok {| remoteObjectId := r; isElementHandle := isNode v |},
             {| heap := <[r := v]> (<[remoteObjectId h := obj']> (heap w));
                fresh := S r;
                journal := journal w ++ [Evaluated (remoteObjectId h) r] |})
        | (Throw reason, obj') =>
            (Thrown {| message := reason |},
             {| heap := <[remoteObjectId h := obj']> (heap w);
                fresh := fresh w;
                journal := journal w ++ [EvalFailed (remoteObjectId h)] |})
        end
    end.

(** Modelled from the spec: [JSHandle.dispose], the RemoteExecutor's
    [dispose(handle) -> void].  It releases the remote reference; every call
    is recorded. *)
Definition dispose (h : JSHandle) : M unit :=
  fun w =>
    (Ok tt,
     {| heap := delete (remoteObjectId h) (heap w);
        fresh := fresh w;
        journal := journal w ++ [Disposed (remoteObjectId h)] |}).

(** Modelled from the spec: [JSHandle.asElement], the RemoteExecutor's
    [asElement(handle) -> ElementRef|null], which classifies a handle as a
    DOM element or not; an element handle is its own element reference. *)
Definition asElement (h : JSHandle) : option JSHandle :=
  if isElementHandle h then Some h else None.

(** How many times [h] was disposed in a run. *)
Fixpoint disposals (h : nat) (evs : list Event) : nat :=
  match evs with
  | [] => 0
  | Disposed h' :: rest => (if h' =? h then 1 else 0) + disposals h rest
  | _ :: rest => disposals h rest
  end.

(** How many remote executions a run performed. *)
Fixpoint executions (evs : list Event) : nat :=
  match evs with
  | [] => 0
  | Disposed _ :: rest => executions rest
  | _ :: rest => S (executions rest)
  end.

(** The handles a run created. *)
Fixpoint created (evs : list Event) : list nat :=
  match evs with
  | [] => []
  | Evaluated _ r :: rest => r :: created rest
  | _ :: rest => created rest
  end.

(** ** The lazy sequence returned by [queryAll] *)

(** [iterable => iterable[Symbol.iterator]()].  A generator object is its
    own iterator; anything that is not iterable makes the call throw. *)
Definition getIterator : PageFunction :=
  fun iterable =>
    match iterable with
    | VIterable produce => (Normal (VIterator produce 0), iterable)
    | VIterator produce cursor => (Normal (VIterator produce cursor), iterable)
    | _ => (Throw "TypeError: iterable[Symbol.iterator] is not a function", iterable)
    end.

(** [iterator => iterator.next().value], which advances the iterator. *)
Definition nextValue : PageFunction :=
  fun iterator =>
    match iterator with
    | VIterator produce cursor => (produce cursor, VIterator produce (S cursor))
    | _ => (Throw "TypeError: iterator.next is not a function", iterator)
    end.

(** The async generator object made by [generate(handle)]: not yet started,
    suspended at its [yield] with its locals, or completed. *)
Inductive Generator :=
| SuspendedStart (handle : JSHandle)
| SuspendedYield (handle elementHandle nextHandle : JSHandle)
| Completed.

Inductive IteratorResult :=
| IterValue (value : JSHandle)
| IterDone.

(** What a pull or a consumer hands back: the outcome, the generator object
    afterwards and the world afterwards. *)
Definition Step (A : Type) : Type := Result A * Generator * World.

(** One turn of the [do ... while] loop of [generate], from the loop head up
    to the next [yield] or to the end of the body. *)
Definition generate_turn (handle : JSHandle) (w : World) : Step IteratorResult :=
  match evaluateHandle handle nextValue w with
  | (Thrown e, w1) => (Thrown e, Completed, w1)
  | (Ok nextHandle, w1) =>
      match asElement nextHandle with
      | Some elementHandle =>
          (Ok (IterValue elementHandle),
           SuspendedYield handle elementHandle nextHandle, w1)
      | None =>
          let w2 := snd (dispose nextHandle w1) in
          let w3 := snd (dispose handle w2) in
          (Ok IterDone, Completed, w3)
      end
  end.

(** [generator.next()].  Resuming after a [yield] first disposes
    [nextHandle]; the loop condition then holds, since the handle that was
    yielded is not null. *)
Definition generator_next (g : Generator) (w : World) : Step IteratorResult :=
  match g with
  | SuspendedStart handle => generate_turn handle w
  | SuspendedYield handle elementHandle nextHandle =>
      generate_turn handle (snd (dispose nextHandle w))
  | Completed => (Ok IterDone, Completed, w)
  end.

(** [generator.return()]: the body of [generate] has no [finally] block, so
    a suspended generator completes without running anything further. *)
Definition generator_return (g : Generator) (w : World) : Generator * World :=
  (Completed, w).

(** The first [n] pulls of a consumer that keeps pulling, with what each
    yielded handle refers to at the moment it is handed over. *)
Fixpoint pulls (n : nat) (g : Generator) (w : World)
  : list (JSHandle * option Value) * Generator * World :=
  match n with
  | 0 => ([], g, w)
  | S n' =>
      match generator_next g w with
      | (Ok (IterValue h), g1, w1) =>
          let '(rest, g2, w2) := pulls n' g1 w1 in
          ((h, heap w1 !! remoteObjectId h) :: rest, g2, w2)
      | (_, g1, w1) => ([], g1, w1)
      end
  end.

(** The consumers of the test utilities. *)
Module Iterable.

(** [Iterable.first]: the [return] inside [for await] closes the
    generator after the first value. *)
Definition first (iterable : Generator) (w : World) : Step (option JSHandle) :=
  match generator_next iterable w with
  | (Thrown e, g1, w1) => (Thrown e, g1, w1)
  | (Ok (IterValue value), g1, w1) =>
      let '(g2, w2) := generator_return g1 w1 in
      (Ok (Some value), g2, w2)
  | (Ok IterDone, g1, w1) => (Ok None, g1, w1)
  end.

(** [Iterable.map] with a callback that inspects each value when it
    receives it.  [fuel] bounds the number of pulls; [None] tells that
    the bound was reached before the sequence ended. *)
Fixpoint map {U : Type} (fuel : nat) (iterable : Generator)
    (callback : JSHandle -> World -> U) (w : World) : option (Step (list U)) :=
  match fuel with
  | 0 => None
  | S fuel' =>
      match generator_next iterable w with
      | (Thrown e, g1, w1) => Some (Thrown e, g1, w1)
      | (Ok IterDone, g1, w1) => Some (Ok [], g1, w1)
      | (Ok (IterValue obj), g1, w1) =>
          let u := callback obj w1 in
          match map fuel' g1 callback w1 with
          | Some (Ok promises, g2, w2) => Some (Ok (u :: promises), g2, w2)
          | other => other
          end
      end
  end.

(** [Iterable.reduce]: the callback is awaited before the next pull.  When
    it throws, the [for await] loop closes the generator and the error
    leaves the function. *)
Fixpoint reduce {U : Type} (fuel : nat) (iterable : Generator)
    (callback : U -> JSHandle -> M U) (initial : U) (w : World)
    : option (Step U) :=
  match fuel with
  | 0 => None
  | S fuel' =>
      match generator_next iterable w with
      | (Thrown e, g1, w1) => Some (Thrown e, g1, w1)
      | (Ok IterDone, g1, w1) => Some (Ok initial, g1, w1)
      | (Ok (IterValue obj), g1, w1) =>
          match callback initial obj w1 with
          | (Thrown e, w2) =>
              let '(g2, w3) := generator_return g1 w2 in
              Some (Thrown e, g2, w3)
          | (Ok initial', w2) => reduce fuel' g1 callback initial' w2
          end
      end
  end.

End Iterable.

(** ** The adapter and the registry *)

(** A raw matching function, [(element, selector) => ...], run in the
    target. *)
Definition RawQuery : Type := Value -> string -> Completion.

(** [element.evaluateHandle(raw, selector)] ships [raw] with its extra
    argument. *)
Definition applied (raw : RawQuery) (selector : string) : PageFunction :=
  fun element => (raw element selector, element).

Record CustomQueryHandler := {
  rawQueryOne : option RawQuery;
  rawQueryAll : option RawQuery
}.

(** A JavaScript [Map] with string keys: the entries in insertion order. *)
Module JSMap.

Definition t (V : Type) : Type := list (string * V).

Fixpoint get {V} (key : string) (m : t V) : option V :=
  match m with
  | [] => None
  | (k, v) :: rest => if String.eqb k key then Some v else get key rest
  end.

Definition has {V} (key : string) (m : t V) : bool :=
  match get key m with Some _ => true | None => false end.

(** [set] keeps the position of a key that is present and appends a new
    key. *)
Fixpoint set {V} (key : string) (value : V) (m : t V) : t V :=
  match m with
  | [] => [(key, value)]
  | (k, v) :: rest =>
      if String.eqb k key then (k, value) :: rest
      else (k, v) :: set key value rest
  end.

Fixpoint delete {V} (key : string) (m : t V) : t V :=
  match m with
  | [] => []
  | (k, v) :: rest =>
      if String.eqb k key then rest else (k, v) :: delete key rest
  end.

Definition keys {V} (m : t V) : list string := List.map fst m.

End JSMap.

(** The collaborators of the module: the execution context with its wait
    primitive, and the DOM calls made by the default engine. *)
Class Host := {
  DOMWorld : Type;
  WaitForSelectorOptions : Type;
  _waitForSelectorInPage :
    DOMWorld -> RawQuery -> string -> WaitForSelectorOptions -> M (option JSHandle);
  instanceofElement : Value -> bool;
  instanceofDocument : Value -> bool;
  querySelector : Value -> string -> Completion;
  querySelectorAll : Value -> string -> Completion;
  (** the two tree walks of the piercing engine *)
  pierceQueryOne : RawQuery;
  pierceQueryAll : RawQuery
}.

Section QueryHandler.

Context `{Host}.

Record InternalQueryHandler := {
  queryOne : option (JSHandle -> string -> M (option JSHandle));
  queryAll : option (JSHandle -> string -> M Generator);
  waitFor :
    option (DOMWorld -> string -> WaitForSelectorOptions -> M (option JSHandle));
  queryAllArray : option (JSHandle -> string -> M JSHandle)
}.

(** [internalHandler.queryOne] *)
Definition internal_queryOne (queryOne : RawQuery)
    (element : JSHandle) (selector : string) : M (option JSHandle) :=
  jsHandle ← evaluateHandle element (applied queryOne selector);
  match asElement jsHandle with
  | Some elementHandle => mret (Some elementHandle)
  | None => _ ← dispose jsHandle; mret None
  end.

(** [internalHandler.waitFor] *)
Definition internal_waitFor (queryOne : RawQuery)
    (domWorld : DOMWorld) (selector : string) (options : WaitForSelectorOptions)
    : M (option JSHandle) :=
  _waitForSelectorInPage domWorld queryOne selector options.

(** [internalHandler.queryAll] *)
Definition internal_queryAll (queryAll : RawQuery)
    (element : JSHandle) (selector : string) : M Generator :=
  iterableHandle ← evaluateHandle element (applied queryAll selector);
  iteratorHandle ← evaluateHandle iterableHandle getIterator;
  _ ← dispose iterableHandle;
  mret (SuspendedStart iteratorHandle).

(** [internalHandler.queryAllArray] *)
Definition internal_queryAllArray (queryAll : RawQuery)
    (element : JSHandle) (selector : string) : M JSHandle :=
  evaluateHandle element (applied queryAll selector).

Definition createInternalQueryHandler (handler : CustomQueryHandler)
    : InternalQueryHandler :=
  let internalHandler :=
    {| queryOne := None; queryAll := None; waitFor := None; queryAllArray := None |} in
  let internalHandler :=
    match rawQueryOne handler with
    | Some queryOne_ =>
        {| queryOne := Some (internal_queryOne queryOne_);
           queryAll := queryAll internalHandler;
           waitFor := Some (internal_waitFor queryOne_);
           queryAllArray := queryAllArray internalHandler |}
    | None => internalHandler
    end in
  let internalHandler :=
    match rawQueryAll handler with
    | Some queryAll_ =>
        {| queryOne := queryOne internalHandler;
           queryAll := Some (internal_queryAll queryAll_);
           waitFor := waitFor internalHandler;
           queryAllArray := Some (internal_queryAllArray queryAll_) |}
    | None => internalHandler
    end in
  internalHandler.

Definition _defaultHandler : InternalQueryHandler :=
  createInternalQueryHandler
    {| rawQueryOne := Some (fun element selector =>
         if instanceofElement element || instanceofDocument element
         then querySelector element selector
         else Normal VNull);
       rawQueryAll := Some (fun element selector =>
         if instanceofElement element || instanceofDocument element
         then querySelectorAll element selector
         else Normal (VIterable (of_list []))) |}.

Definition pierceHandler : InternalQueryHandler :=
  createInternalQueryHandler
    {| rawQueryOne := Some pierceQueryOne; rawQueryAll := Some pierceQueryAll |}.

(** The handler imported from [AriaQueryHandler]. *)
Variable ariaHandler : InternalQueryHandler.

Definition builtInHandlers : JSMap.t InternalQueryHandler :=
  [("aria", ariaHandler); ("pierce", pierceHandler)].

(** The value of the module-level [queryHandlers] when the module is
    loaded: [new Map(builtInHandlers)]. *)
Definition queryHandlers0 : JSMap.t InternalQueryHandler := builtInHandlers.

(** Registry functions run on the current [queryHandlers]; a mutating one
    hands back the map as it is when the call returns or throws. *)
Definition Registry : Type := JSMap.t InternalQueryHandler.

Definition DuplicateNameError (name : string) : Error :=
  {| message := "A custom query handler named " +:+ JS.dquote +:+ name
                +:+ JS.dquote +:+ " already exists" |}.

Definition InvalidNameError : Error :=
  {| message := "Custom query handler names may only contain [a-zA-Z]" |}.

Definition UnknownEngineError (name : string) : Error :=
  {| message := "Query set to use " +:+ JS.dquote +:+ name +:+ JS.dquote
                +:+ ", but no query handler of that name was found" |}.

Definition _registerCustomQueryHandler (name : string) (handler : CustomQueryHandler)
    (queryHandlers : Registry) : Result unit * Registry :=
  match JSMap.get name queryHandlers with
  | Some _ => (Thrown (DuplicateNameError name), queryHandlers)
  | None =>
      let isValidName := JS.test_letters_only name in
      if negb isValidName then (Thrown InvalidNameError, queryHandlers)
      else
        let internalHandler := createInternalQueryHandler handler in
        (Ok tt, JSMap.set name internalHandler queryHandlers)
  end.

Definition _unregisterCustomQueryHandler (name : string)
    (queryHandlers : Registry) : Registry :=
  if JSMap.has name queryHandlers && negb (JSMap.has name builtInHandlers)
  then JSMap.delete name queryHandlers
  else queryHandlers.

Definition _customQueryHandlerNames (queryHandlers : Registry) : list string :=
  List.filter (fun name => negb (JSMap.has name builtInHandlers))
              (JSMap.keys queryHandlers).

(** [forEach] walks the array of names computed beforehand. *)
Definition _clearCustomQueryHandlers (queryHandlers : Registry) : Registry :=
  fold_left (fun q name => _unregisterCustomQueryHandler name q)
            (_customQueryHandlerNames queryHandlers) queryHandlers.

Record Resolved := {
  updatedSelector : string;
  queryHandler : InternalQueryHandler
}.

Definition _getQueryHandlerAndSelector (selector : string)
    (queryHandlers : Registry) : Result Resolved :=
  let hasCustomQueryHandler := JS.test_letters_slash selector in
  if negb hasCustomQueryHandler
  then Ok {| updatedSelector := selector; queryHandler := _defaultHandler |}
  else
    let index := JS.indexOf "/"%char selector in
    let name := JS.slice selector 0 (Some index) in
    let updatedSelector_ := JS.slice selector (index + 1) None in
    match JSMap.get name queryHandlers with
    | None => Thrown (UnknownEngineError name)
    | Some queryHandler_ =>
        Ok {| updatedSelector := updatedSelector_; queryHandler := queryHandler_ |}
    end.

(** A call of the public registry interface. *)
Inductive Call :=
| CallRegister (name : string) (handler : CustomQueryHandler)
| CallUnregister (name : string)
| CallClear.

Definition call (c : Call) (queryHandlers : Registry) : Registry :=
  match c with
  | CallRegister name handler =>
      snd (_registerCustomQueryHandler name handler queryHandlers)
  | CallUnregister name => _unregisterCustomQueryHandler name queryHandlers
  | CallClear => _clearCustomQueryHandlers queryHandlers
  end.

(** The registry after a sequence of calls made since the module was
    loaded, whether or not some of them threw. *)
Definition after (calls : list Call) : Registry :=
  fold_left (fun q c => call c q) calls queryHandlers0.

(** Whether a name is one of the two built-in engine names. *)
Definition isBuiltInName (name : string) : bool :=
  String.eqb name "aria" || String.eqb name "pierce".

(** The custom names in the order of their registration, read off the
    calls alone: a registration that is accepted puts its name last, a
    removal takes the name out, clearing empties the list. *)
Definition registration_step (names : list string) (c : Call) : list string :=
  match c with
  | CallRegister name _ =>
      if JS.test_letters_only name && negb (isBuiltInName name)
         && negb (existsb (String.eqb name) names)
      then names ++ [name] else names
  | CallUnregister name =>
      List.filter (fun n => negb (String.eqb n name)) names
  | CallClear => []
  end.

Definition registration_order (calls : list Call) : list string :=
  fold_left registration_step calls [].

(** The custom part of a registry: distinct keys, each a valid name that is
    not the name of a built-in engine. *)
Definition customs_ok (customs : Registry) : Prop :=
  NoDup (JSMap.keys customs)
  /\ Forall (fun k => JS.test_letters_only k = true /\ isBuiltInName k = false)
            (JSMap.keys customs).

End QueryHandler.

(** ** The course of a bridged iteration *)

(** The element handle with a given identifier. *)
Definition elementHandleOf (id : nat) : JSHandle :=
  {| remoteObjectId := id; isElementHandle := true |}.

(** The calls made for [n] probes of the iterator [it] whose result handles
    are numbered from [k]: each probe is one execution, and its result
    handle is disposed before the next probe. *)
Definition probe_events (it k n : nat) : list Event :=
  flat_map (fun i => [Evaluated it (k + i); Disposed (k + i)]) (seq 0 n).

(** The generator object after [i] values were yielded. *)
Definition generator_after (it : JSHandle) (k i : nat) : Generator :=
  match i with
  | 0 => SuspendedStart it
  | S i' => SuspendedYield it (elementHandleOf (k + i')) (elementHandleOf (k + i'))
  end.

(** The disposal that a suspended generator performs first when resumed. *)
Definition pending (g : Generator) : list Event :=
  match g with
  | SuspendedYield _ _ nextHandle => [Disposed (remoteObjectId nextHandle)]
  | _ => []
  end.

(** The world after [i] values were yielded by the bridge over the iterator
    handle [it]: the target iterator was advanced [i] times, result handles
    are numbered from [k], and [j0] is the journal at the first pull. *)
Record bridge_at (produce : nat -> Completion) (c0 : nat) (it : JSHandle)
    (j0 : list Event) (k i : nat) (w : World) : Prop := {
  bridge_iterator :
    heap w !! remoteObjectId it = Some (VIterator produce (c0 + i));
  bridge_fresh : fresh w = k + i;
  bridge_below : remoteObjectId it < k;
  bridge_journal :
    journal w ++ pending (generator_after it k i)
    = j0 ++ probe_events (remoteObjectId it) k i
}.

(** Every handle that a run created was disposed exactly once in it. *)
Definition disposed_exactly_once (evs : list Event) : Prop :=
  forall h, h ∈ created evs -> disposals h evs = 1.

(** ** Sample data *)

Module Sample.

Definition host : Host := {|
  DOMWorld := unit;
  WaitForSelectorOptions := unit;
  _waitForSelectorInPage := fun _ _ _ _ w => (Ok None, w);
  instanceofElement := isNode;
  instanceofDocument := fun _ => false;
  querySelector := fun _ _ => Normal VNull;
  querySelectorAll := fun _ _ => Normal (VIterable (of_list []));
  pierceQueryOne := fun _ _ => Normal VNull;
  pierceQueryAll := fun _ _ => Normal (VIterable (of_list []))
|}.

(** A handler with no capability stands for the imported one. *)
Definition aria : @InternalQueryHandler host :=
  @createInternalQueryHandler host {| rawQueryOne := None; rawQueryAll := None |}.

(** A world with one live element handle, the root of the queries. *)
Definition root : JSHandle := elementHandleOf 0.

Definition world : World :=
  {| heap := {[ 0 := VNode 0 ]}; fresh := 1; journal := [] |}.

(** [queryAll] returning the elements [a, b, c]. *)
Definition abc : RawQuery :=
  fun _ _ => Normal (VIterable (of_list [VNode 1; VNode 2; VNode 3])).

(** [queryAll] returning [null]. *)
Definition nothing : RawQuery := fun _ _ => Normal VNull.

(** [queryOne] returning an element. *)
Definition one : RawQuery := fun _ _ => Normal (VNode 1).

Definition handler : CustomQueryHandler :=
  {| rawQueryOne := Some one; rawQueryAll := Some abc |}.

End Sample.

(** ** The frame dump of the test utilities *)

(** A frame as [dumpFrames] reads it: [frame.url()], [frame.name()] and
    [frame.childFrames()]. *)
Inductive Frame :=
| mkFrame (url name : string) (childFrames : list Frame).

(** The character class [\d]. *)
Definition isDigit (c : ascii) : bool :=
  let n := Ascii.nat_of_ascii c in (48 <=? n) && (n <=? 57).

(** A match of [/:\d{4}\//] at the start of [s]: the text after it. *)
Definition port_ahead (s : string) : option string :=
  match s with
  | String c0 (String d1 (String d2 (String d3 (String d4 (String c5 rest))))) =>
      if Ascii.eqb c0 ":"%char && isDigit d1 && isDigit d2 && isDigit d3
         && isDigit d4 && Ascii.eqb c5 "/"%char
      then Some rest else None
  | _ => None
  end.

(** [s.replace(/:\d{4}\//, ':<PORT>/')]: the leftmost match is replaced,
    the rest of the text is kept. *)
Fixpoint replace_port (s : string) : string :=
  match port_ahead s with
  | Some rest => ":<PORT>/" +:+ rest
  | None =>
      match s with
      | EmptyString => EmptyString
      | String c tail => String c (replace_port tail)
      end
  end.

(** The [description] of a frame. *)
Definition description (url name : string) : string :=
  let description := replace_port url in
  if negb (String.eqb name "") then description +:+ " (" +:+ name +:+ ")"
  else description.

(** [dumpFrames(frame, indentation)]; [None] is an omitted indentation. *)
Fixpoint dumpFrames (frame : Frame) (indentation : option string) : list string :=
  match frame with
  | mkFrame url name childFrames =>
      let indentation := default "" indentation in
      let result := [indentation +:+ description url name] in
      result ++ flat_map (fun child => dumpFrames child (Some ("    " +:+ indentation)))
                         childFrames
  end.

(** The frames of a tree with their depths, parents before children and
    children in their order. *)
Fixpoint frames_by_depth (depth : nat) (frame : Frame) : list (nat * Frame) :=
  match frame with
  | mkFrame url name childFrames =>
      (depth, frame) :: flat_map (frames_by_depth (S depth)) childFrames
  end.

(** [depth] times four spaces. *)
Fixpoint indent (depth : nat) : string :=
  match depth with
  | 0 => ""
  | S d => "    " +:+ indent d
  end.

Definition frame_description (frame : Frame) : string :=
  match frame with mkFrame url name _ => description url name end.

(** ** The piercing engine *)

(** A node of the target document as the tree walks see it: its identity,
    its shadow root if it hosts one, and its child elements in document
    order. *)
Inductive DomNode :=
| mkDomNode (nodeId : nat) (shadowRoot : option DomNode) (elements : list DomNode).

(** Whether a node reference or [null] is truthy. *)
Definition truthy {A : Type} (o : option A) : bool :=
  match o with Some _ => true | None => false end.

Section Pierce.

(** [element.matches(selector)], for a selector that parses. *)
Variable matches : nat -> string -> bool.
Variable selector : string.

(** The loop of [search] from the node the walker is on: the body for the
    current node, then the descendants as [nextNode()] reaches them, as
    long as nothing was found.  [isRoot] tells that the current node is the
    root of the walker; [found] is the variable shared by the calls.  A
    tree walker created with [SHOW_ELEMENT] starts on its root and moves
    through the descendant elements in document order, without entering
    shadow trees. *)
Fixpoint search (isRoot : bool) (found : option nat) (currentNode : DomNode)
    : option nat :=
  match currentNode with
  | mkDomNode id shadow children =>
      let found :=
        match shadow with
        | Some root' => search true found root'
        | None => found
        end in
      let found :=
        if negb isRoot && negb (truthy found) && matches id selector
        then Some id else found in
      fold_left (fun found child =>
                   if negb (truthy found) then search false found child
                   else found)
                children found
  end.

(** The values yielded by [collect], in the order of the yields. *)
Fixpoint collect (isRoot : bool) (currentNode : DomNode) : list nat :=
  match currentNode with
  | mkDomNode id shadow children =>
      (match shadow with
       | Some root' => collect true root'
       | None => []
       end)
      ++ (if negb isRoot && matches id selector then [id] else [])
      ++ flat_map (collect false) children
  end.

(** [queryOne] and [queryAll] of the piercing handler, on the tree under
    the element they are given. *)
Definition pierce_queryOne (element : DomNode) : option nat :=
  search true None element.

Definition pierce_queryAll (element : DomNode) : list nat :=
  collect true element.

End Pierce.

(** The nodes that the two walks test against the selector, in the order
    in which they reach them: for each node the content of its shadow tree,
    then the node itself unless it is the root of its walker, then its
    descendants. *)
Fixpoint candidates (isRoot : bool) (node : DomNode) : list nat :=
  match node with
  | mkDomNode id shadow children =>
      (match shadow with
       | Some root' => candidates true root'
       | None => []
       end)
      ++ (if isRoot then [] else [id])
      ++ flat_map (candidates false) children
  end.

(** Whether every character of a text is in a class. *)
Fixpoint all_chars (cls : ascii -> bool) (s : string) : bool :=
  match s with
  | EmptyString => true
  | String c rest => cls c && all_chars cls rest
  end.

(** Whether [iterable[Symbol.iterator]()] succeeds on a value. *)
Definition isIterable (v : Value) : bool :=
  match v with VIterable _ | VIterator _ _ => true | _ => false end.

(** * Properties *)

(** ** Strings *)

Module JSFacts.
Import JS.

Lemma letter_not_slash c : isLetter c = true -> Ascii.eqb c "/"%char = false.
Proof.
  intros Hc. destruct (Ascii.eqb c "/"%char) eqn:E; [|done].
  apply Ascii.eqb_eq in E. subst c. discriminate Hc.
Qed.

Lemma test_letters_only_spec s :
  test_letters_only s = true <-> all_letters s = true /\ s <> EmptyString.
Proof.
  unfold test_letters_only. induction s as [|c s IH]; simpl.
  - split; [discriminate | intros [_ Hs]; by destruct Hs].
  - rewrite andb_true_iff, orb_true_iff, andb_true_iff.
    split.
    + intros [Hc [Hs | Hs]].
      * destruct s; [|discriminate]. done.
      * apply IH in Hs as [Hs _]. done.
    + intros [[Hc Hs] _]. split; [done|].
      destruct s as [|c' s']; [by left|right].
      apply IH. split; [done | discriminate].
Qed.

(** The second pattern holds exactly of the strings made of a non-empty
    run of letters, a slash, and anything after it. *)
Lemma test_letters_slash_split s :
  test_letters_slash s = true ->
  exists name rest,
    s = name +:+ String "/"%char rest /\ test_letters_only name = true.
Proof.
  unfold test_letters_slash, test_letters_only.
  induction s as [|c s IH]; simpl; [discriminate|].
  rewrite andb_true_iff, orb_true_iff. intros [Hc [Hs | Hs]].
  - destruct s as [|a rest]; [discriminate|]. simpl in Hs.
    apply Ascii.eqb_eq in Hs. subst a.
    exists (String c EmptyString), rest. simpl. by rewrite Hc.
  - destruct (IH Hs) as (name & rest & -> & Hname).
    exists (String c name), rest. simpl. rewrite Hc, Hname.
    by rewrite orb_true_r.
Qed.

Lemma test_letters_slash_join name rest :
  test_letters_only name = true ->
  test_letters_slash (name +:+ String "/"%char rest) = true.
Proof.
  unfold test_letters_slash, test_letters_only.
  induction name as [|c name IH]; simpl; [discriminate|].
  rewrite andb_true_iff, orb_true_iff. intros [Hc Hs]. rewrite Hc. simpl.
  destruct name as [|c' name'].
  - simpl. done.
  - destruct Hs as [Hs | Hs]; [discriminate|].
    rewrite (IH Hs). by rewrite orb_true_r.
Qed.

Lemma indexOf_from_letters name rest i :
  all_letters name = true ->
  indexOf_from "/"%char (name +:+ String "/"%char rest) i
  = (i + Z.of_nat (String.length name))%Z.
Proof.
  revert i. induction name as [|c name IH]; simpl; intros i Hn.
  - lia.
  - apply andb_true_iff in Hn as [Hc Hn].
    rewrite (letter_not_slash c Hc), IH by done. lia.
Qed.

Lemma indexOf_from_none name i :
  all_letters name = true -> indexOf_from "/"%char name i = (-1)%Z.
Proof.
  revert i. induction name as [|c name IH]; simpl; intros i Hn; [done|].
  apply andb_true_iff in Hn as [Hc Hn].
  by rewrite (letter_not_slash c Hc), IH.
Qed.

Lemma substring_all s : String.substring 0 (String.length s) s = s.
Proof. induction s as [|c s IH]; simpl; [done | by rewrite IH]. Qed.

Lemma substring_prefix a b :
  String.substring 0 (String.length a) (a +:+ b) = a.
Proof.
  induction a as [|c a IH]; simpl.
  - by destruct b.
  - by rewrite IH.
Qed.

Lemma substring_suffix a b :
  String.substring (String.length a) (String.length b) (a +:+ b) = b.
Proof.
  induction a as [|c a IH]; simpl; [apply substring_all | done].
Qed.

Lemma length_append a b :
  String.length (a +:+ b) = String.length a + String.length b.
Proof. induction a as [|c a IH]; simpl; [done | by rewrite IH]. Qed.

(** On [name/rest] with [name] made of letters, the three string calls of
    the resolver find the first slash and cut around it. *)
Lemma cut_at_first_slash name rest :
  all_letters name = true ->
  let selector := name +:+ String "/"%char rest in
  let index := indexOf "/"%char selector in
  index = Z.of_nat (String.length name)
  /\ slice selector 0 (Some index) = name
  /\ slice selector (index + 1) None = rest.
Proof.
  intros Hn selector index.
  assert (Hi : index = Z.of_nat (String.length name)).
  { unfold index, indexOf, selector. rewrite indexOf_from_letters by done. lia. }
  split; [done|]. rewrite Hi. unfold slice, clamp, selector.
  rewrite length_append. simpl String.length.
  split.
  - replace (0 <? 0)%Z with false by done.
    destruct (Z.of_nat (String.length name) <? 0)%Z eqn:E; [lia|].
    replace (Z.to_nat (Z.min 0 _)) with 0 by lia.
    replace (Z.to_nat _) with (String.length name) by lia.
    apply substring_prefix.
  - destruct (Z.of_nat (String.length name) + 1 <? 0)%Z eqn:E; [lia|].
    replace (Z.to_nat (Z.min _ _)) with (String.length (name +:+ "/")).
    2:{ rewrite length_append. simpl. lia. }
    replace (Z.to_nat _) with (String.length rest) by lia.
    assert (Hcut : name +:+ String "/"%char rest = (name +:+ "/") +:+ rest).
    { clear. induction name as [|c name IH]; [done|].
      change (String c (name +:+ String "/"%char rest)
              = String c ((name +:+ "/") +:+ rest)).
      by f_equal. }
    rewrite Hcut. apply substring_suffix.
Qed.

End JSFacts.


(** ** The map *)

Module JSMapFacts.
Import JSMap.

Section Facts.
Context {V : Type}.
Implicit Types (m : t V) (k : string) (v : V).

Lemma get_app k m1 m2 :
  get k (m1 ++ m2) = match get k m1 with Some v => Some v | None => get k m2 end.
Proof.
  induction m1 as [|[k' v'] m1 IH]; simpl; [done|].
  by destruct (String.eqb k' k).
Qed.

Lemma get_None_keys k m : get k m = None <-> k ∉ keys m.
Proof.
  induction m as [|[k' v'] m IH]; simpl.
  - split; [intros _; apply not_elem_of_nil | done].
  - rewrite not_elem_of_cons. destruct (String.eqb_spec k' k) as [->|Hne].
    + split; [discriminate | intros [Hk _]; by destruct Hk].
    + rewrite IH. split; [intros Hk; split; [congruence | done] | by intros [_ Hk]].
Qed.

Lemma get_Some_keys k v m : get k m = Some v -> k ∈ keys m.
Proof.
  intros Hget. destruct (decide (k ∈ keys m)) as [|Hk]; [done|].
  apply get_None_keys in Hk. congruence.
Qed.

Lemma set_absent k v m : get k m = None -> set k v m = m ++ [(k, v)].
Proof.
  induction m as [|[k' v'] m IH]; simpl; [done|].
  destruct (String.eqb k' k); [discriminate|]. intros Hk. by rewrite IH.
Qed.

Lemma get_set k v m : get k (set k v m) = Some v.
Proof.
  induction m as [|[k' v'] m IH]; simpl.
  - by rewrite String.eqb_refl.
  - destruct (String.eqb k' k) eqn:E; simpl; by rewrite E.
Qed.

Lemma delete_absent k m : get k m = None -> delete k m = m.
Proof.
  induction m as [|[k' v'] m IH]; simpl; [done|].
  destruct (String.eqb k' k); [discriminate|]. intros Hk. by rewrite IH.
Qed.

Lemma delete_app_absent k m1 m2 :
  get k m1 = None -> delete k (m1 ++ m2) = m1 ++ delete k m2.
Proof.
  induction m1 as [|[k' v'] m1 IH]; simpl; [done|].
  destruct (String.eqb k' k); [discriminate|]. intros Hk. by rewrite IH.
Qed.

Lemma filter_other_id k (l : list string) :
  k ∉ l -> List.filter (fun n => negb (String.eqb n k)) l = l.
Proof.
  induction l as [|a l IH]; simpl; [done|].
  rewrite not_elem_of_cons. intros [Hne Hk].
  destruct (String.eqb_spec a k) as [->|_]; [done|]. simpl. by rewrite IH.
Qed.

(** With distinct keys, deleting a key filters it out of the key list and
    leaves the other keys in their order. *)
Lemma keys_delete k m :
  NoDup (keys m) ->
  keys (delete k m) = List.filter (fun n => negb (String.eqb n k)) (keys m).
Proof.
  induction m as [|[k' v'] m IH]; simpl; [done|].
  rewrite NoDup_cons. intros [Hk' Hnd].
  destruct (String.eqb_spec k' k) as [->|Hne]; simpl.
  - by rewrite filter_other_id.
  - by rewrite IH.
Qed.

Lemma delete_elem_of k k' m : k' ∈ keys (delete k m) -> k' ∈ keys m.
Proof.
  induction m as [|[a v'] m IH]; simpl; [done|].
  destruct (String.eqb a k); simpl; rewrite ?elem_of_cons; [tauto|].
  intros [->|Hin]; [by left | right; by apply IH].
Qed.

Lemma delete_NoDup k m : NoDup (keys m) -> NoDup (keys (delete k m)).
Proof.
  induction m as [|[a v'] m IH]; simpl; [done|].
  rewrite NoDup_cons. intros [Ha Hnd].
  destruct (String.eqb a k); simpl; [done|].
  apply NoDup_cons. split; [|by apply IH].
  intros Hin. apply Ha. by eapply delete_elem_of.
Qed.

Lemma existsb_keys k m :
  existsb (String.eqb k) (keys m) = has k m.
Proof.
  unfold has. induction m as [|[k' v'] m IH]; simpl; [done|].
  rewrite String.eqb_sym. destruct (String.eqb k' k); simpl; [done|]. apply IH.
Qed.

End Facts.
End JSMapFacts.


(** ** The registry *)

Section RegistryFacts.
Context `{Host} (ariaHandler : InternalQueryHandler).

Local Abbreviation builtIns := (builtInHandlers ariaHandler).
Local Abbreviation unregister := (_unregisterCustomQueryHandler ariaHandler).
Local Abbreviation names := (_customQueryHandlerNames ariaHandler).
Local Abbreviation clear := (_clearCustomQueryHandlers ariaHandler).
Local Abbreviation registry_after := (after ariaHandler).

Lemma has_builtIn name : JSMap.has name builtIns = isBuiltInName name.
Proof.
  unfold JSMap.has, builtInHandlers, isBuiltInName. cbn [JSMap.get].
  rewrite (String.eqb_sym name "aria"), (String.eqb_sym name "pierce").
  destruct (String.eqb "aria" name), (String.eqb "pierce" name); done.
Qed.

Lemma get_builtIn_None name :
  isBuiltInName name = false -> JSMap.get name builtIns = None.
Proof.
  rewrite <- has_builtIn. unfold JSMap.has.
  by destruct (JSMap.get name builtIns).
Qed.

Lemma get_builtIn_Some name :
  isBuiltInName name = true -> exists h, JSMap.get name builtIns = Some h.
Proof.
  rewrite <- has_builtIn. unfold JSMap.has.
  destruct (JSMap.get name builtIns); [eauto | discriminate].
Qed.

Lemma customs_absent name customs :
  customs_ok customs -> isBuiltInName name = true -> name ∉ JSMap.keys customs.
Proof.
  intros [_ Hall] Hb Hin. rewrite Forall_forall in Hall.
  destruct (Hall _ Hin) as [_ Hnb]. congruence.
Qed.

Lemma customs_invalid_absent name customs :
  customs_ok customs -> JS.test_letters_only name = false ->
  name ∉ JSMap.keys customs.
Proof.
  intros [_ Hall] Hb Hin. rewrite Forall_forall in Hall.
  destruct (Hall _ Hin) as [Hv _]. congruence.
Qed.

Lemma register_shape customs name handler :
  customs_ok customs ->
  exists customs',
    snd (_registerCustomQueryHandler name handler (builtIns ++ customs))
    = builtIns ++ customs'
    /\ customs_ok customs'
    /\ JSMap.keys customs'
       = registration_step (JSMap.keys customs) (CallRegister name handler).
Proof.
  intros Hok. unfold _registerCustomQueryHandler, registration_step.
  rewrite JSMapFacts.get_app, JSMapFacts.existsb_keys.
  destruct (isBuiltInName name) eqn:Hb.
  - destruct (get_builtIn_Some name Hb) as [h ->]. cbn [snd negb].
    exists customs. by rewrite andb_false_r.
  - rewrite (get_builtIn_None name Hb). unfold JSMap.has.
    destruct (JSMap.get name customs) as [h|] eqn:Hget; cbn [snd negb].
    + exists customs. by rewrite andb_false_r.
    + destruct (JS.test_letters_only name) eqn:Hv; cbn [snd negb andb];
        [|by exists customs].
      exists (customs ++ [(name, createInternalQueryHandler handler)]).
      split; [|split].
      * rewrite JSMapFacts.set_absent, <- app_assoc; [done|].
        by rewrite JSMapFacts.get_app, (get_builtIn_None name Hb).
      * destruct Hok as [Hnd Hall]. unfold customs_ok, JSMap.keys.
        rewrite List.map_app. simpl. split.
        -- apply NoDup_app. split; [done|]. split; [|apply NoDup_singleton].
           intros k Hk. rewrite list_elem_of_singleton. intros ->.
           by apply JSMapFacts.get_None_keys in Hget.
        -- apply Forall_app. split; [done|]. by apply Forall_singleton.
      * unfold JSMap.keys. by rewrite List.map_app.
Qed.

Lemma unregister_builtin name (q : Registry) :
  isBuiltInName name = true -> unregister name q = q.
Proof.
  intros Hb. unfold _unregisterCustomQueryHandler.
  by rewrite has_builtIn, Hb, andb_false_r.
Qed.

Lemma unregister_absent name (q : Registry) :
  JSMap.has name q = false -> unregister name q = q.
Proof. intros Hq. unfold _unregisterCustomQueryHandler. by rewrite Hq. Qed.

Lemma unregister_custom name customs :
  isBuiltInName name = false ->
  unregister name (builtIns ++ customs) = builtIns ++ JSMap.delete name customs.
Proof.
  intros Hb. unfold _unregisterCustomQueryHandler.
  rewrite has_builtIn, Hb. simpl negb. rewrite andb_true_r.
  unfold JSMap.has. rewrite JSMapFacts.get_app, (get_builtIn_None name Hb).
  destruct (JSMap.get name customs) eqn:Hget.
  - by rewrite JSMapFacts.delete_app_absent by by apply get_builtIn_None.
  - by rewrite JSMapFacts.delete_absent.
Qed.

Lemma unregister_shape customs name :
  customs_ok customs ->
  exists customs',
    unregister name (builtIns ++ customs) = builtIns ++ customs'
    /\ customs_ok customs'
    /\ JSMap.keys customs'
       = registration_step (JSMap.keys customs) (CallUnregister name).
Proof.
  intros Hok. cbn [registration_step]. destruct (isBuiltInName name) eqn:Hb.
  - exists customs. rewrite unregister_builtin by done.
    rewrite JSMapFacts.filter_other_id; [done|]. by apply customs_absent.
  - exists (JSMap.delete name customs). rewrite unregister_custom by done.
    destruct Hok as [Hnd Hall]. split; [done|]. split.
    + split; [by apply JSMapFacts.delete_NoDup|].
      rewrite Forall_forall in *. intros k Hk.
      apply Hall. by eapply JSMapFacts.delete_elem_of.
    + by apply JSMapFacts.keys_delete.
Qed.

Lemma names_shape customs :
  customs_ok customs -> names (builtIns ++ customs) = JSMap.keys customs.
Proof.
  intros [_ Hall]. unfold _customQueryHandlerNames, JSMap.keys in *.
  rewrite List.map_app, List.filter_app.
  replace (List.filter _ (List.map fst builtIns)) with (@nil string) by done.
  induction customs as [|[k v] customs IH]; [done|].
  cbn [List.map List.filter fst app] in *.
  apply Forall_cons in Hall as [[_ Hk] Hall].
  rewrite has_builtIn, Hk. cbn [negb]. f_equal. by apply IH.
Qed.

Lemma unregister_all customs :
  customs_ok customs ->
  fold_left (fun q name => unregister name q) (JSMap.keys customs)
            (builtIns ++ customs)
  = builtIns.
Proof.
  induction customs as [|[k v] customs IH]; intros [Hnd Hall];
    cbn [JSMap.keys List.map fst fold_left] in *.
  - by rewrite app_nil_r.
  - apply NoDup_cons in Hnd as [Hk Hnd].
    apply Forall_cons in Hall as [[Hv Hb] Hall].
    rewrite unregister_custom by done. cbn [JSMap.delete].
    rewrite String.eqb_refl. by apply IH.
Qed.

Lemma clear_shape customs :
  customs_ok customs -> clear (builtIns ++ customs) = builtIns.
Proof.
  intros Hok. unfold _clearCustomQueryHandlers.
  rewrite names_shape by done. by apply unregister_all.
Qed.

(** Every registry that the calls of the interface can produce consists of
    the built-in entries followed by the custom entries, whose keys are the
    custom names in the order of their registration. *)
Lemma after_shape calls :
  exists customs,
    registry_after calls = builtIns ++ customs
    /\ customs_ok customs
    /\ JSMap.keys customs = registration_order calls.
Proof.
  induction calls as [|c calls IH] using rev_ind.
  - exists []. split; [done|]. split; [|done].
    split; [apply NoDup_nil_2 | apply Forall_nil_2].
  - destruct IH as (customs & Hq & Hok & Hkeys).
    unfold after, registration_order. rewrite !fold_left_app.
    cbn [fold_left]. fold (registry_after calls). fold (registration_order calls).
    rewrite Hq, <- Hkeys. destruct c as [name handler | name | ].
    + apply register_shape, Hok.
    + apply unregister_shape, Hok.
    + exists []. cbn [call registration_step]. rewrite clear_shape by done.
      split; [by rewrite app_nil_r|]. split; [|done].
      split; [apply NoDup_nil_2 | apply Forall_nil_2].
Qed.

End RegistryFacts.


(** ** Registration, removal and resolution *)

Section RegistryClaims.
Context `{Host} (ariaHandler : InternalQueryHandler).

Local Abbreviation builtIns := (builtInHandlers ariaHandler).
Local Abbreviation unregister := (_unregisterCustomQueryHandler ariaHandler).
Local Abbreviation names := (_customQueryHandlerNames ariaHandler).
Local Abbreviation clear := (_clearCustomQueryHandlers ariaHandler).
Local Abbreviation registry_after := (after ariaHandler).

Lemma has_keys {V} name (m : JSMap.t V) :
  JSMap.has name m = true <-> name ∈ JSMap.keys m.
Proof.
  unfold JSMap.has. destruct (JSMap.get name m) eqn:Hget.
  - split; [intros _; by eapply JSMapFacts.get_Some_keys | done].
  - apply JSMapFacts.get_None_keys in Hget. split; [discriminate | done].
Qed.

Lemma slash_append rest : "/" +:+ rest = String "/"%char rest.
Proof. reflexivity. Qed.

(** Resolution of a selector made of a valid name, a slash and a rest. *)
Lemma resolve_named name rest (q : Registry) :
  JS.test_letters_only name = true ->
  _getQueryHandlerAndSelector (name +:+ "/" +:+ rest) q
  = match JSMap.get name q with
    | None => Thrown (UnknownEngineError name)
    | Some handler => Ok {| updatedSelector := rest; queryHandler := handler |}
    end.
Proof.
  intros Hname. rewrite slash_append. unfold _getQueryHandlerAndSelector.
  rewrite JSFacts.test_letters_slash_join by done. cbn [negb].
  apply JSFacts.test_letters_only_spec in Hname as [Hall _].
  destruct (JSFacts.cut_at_first_slash name rest Hall) as (_ & Hname & Hrest).
  cbv zeta. by rewrite Hname, Hrest.
Qed.

(** The registry reached by any calls holds the built-in entries, and a
    name outside of them is held exactly when it is a custom name. *)
Lemma get_after calls name :
  exists customs,
    registry_after calls = builtIns ++ customs /\ customs_ok customs
    /\ JSMap.get name (registry_after calls)
       = match JSMap.get name builtIns with
         | Some h => Some h
         | None => JSMap.get name customs
         end.
Proof.
  destruct (after_shape ariaHandler calls) as (customs & Hq & Hok & _).
  exists customs. by rewrite Hq, JSMapFacts.get_app.
Qed.

(** C10. [_customQueryHandlerNames] returns the custom names that are
    registered at the time of the call, in the order in which they were
    registered, and no built-in name: after any calls of the interface it is
    the list obtained by appending each accepted name, taking out each
    removed name and emptying the list on clearing; and on any registry a
    name is listed exactly when it is a key that is not built in. *)
Theorem custom_names_in_registration_order (calls : list Call) :
  names (registry_after calls) = registration_order calls
  /\ NoDup (names (registry_after calls))
  /\ forall (q : Registry) (name : string),
       name ∈ names q
       <-> JSMap.has name q = true /\ JSMap.has name builtIns = false.
Proof.
  destruct (after_shape ariaHandler calls) as (customs & -> & Hok & <-).
  rewrite names_shape by done. split; [done|]. split; [by destruct Hok|].
  intros q name. unfold _customQueryHandlerNames.
  rewrite list_elem_of_In, List.filter_In, <- list_elem_of_In, has_keys.
  by rewrite negb_true_iff.
Qed.

(** C4. On a registry reached by any calls, registering a name that is
    present (built in or custom) throws the duplicate-name error, and
    registering a name that does not match [^[A-Za-z]+$] throws the
    invalid-name error; in both cases the registry is the one before the
    call.  After an accepted registration, a second one of the same name
    throws the duplicate-name error and the first handler stays in place. *)
Theorem register_failure_is_atomic (calls : list Call) (name : string)
    (handler : CustomQueryHandler) :
  let q := registry_after calls in
  (JSMap.has name q = true ->
     _registerCustomQueryHandler name handler q
     = (Thrown (DuplicateNameError name), q))
  /\ (JS.test_letters_only name = false ->
        _registerCustomQueryHandler name handler q = (Thrown InvalidNameError, q))
  /\ (forall first : CustomQueryHandler,
        JS.test_letters_only name = true -> JSMap.has name q = false ->
        let q1 := snd (_registerCustomQueryHandler name first q) in
        fst (_registerCustomQueryHandler name first q) = Ok tt
        /\ _registerCustomQueryHandler name handler q1
           = (Thrown (DuplicateNameError name), q1)
        /\ JSMap.get name q1 = Some (createInternalQueryHandler first)).
Proof.
  intros q. split; [|split].
  - unfold JSMap.has, _registerCustomQueryHandler.
    by destruct (JSMap.get name q).
  - intros Hv. destruct (get_after calls name) as (customs & Hq & Hok & Hget).
    unfold _registerCustomQueryHandler. fold q in Hget. rewrite Hget.
    destruct (isBuiltInName name) eqn:Hb.
    + destruct name as [|c name']; [done|].
      unfold isBuiltInName in Hb. apply orb_true_iff in Hb as [Hb|Hb];
        apply String.eqb_eq in Hb; rewrite Hb in Hv; discriminate Hv.
    + rewrite (get_builtIn_None ariaHandler name Hb).
      pose proof (customs_invalid_absent name customs Hok Hv) as Habs.
      apply JSMapFacts.get_None_keys in Habs. by rewrite Habs, Hv.
  - intros first Hv Hq q1. unfold JSMap.has in Hq.
    assert (Hfirst : _registerCustomQueryHandler name first q
                     = (Ok tt, JSMap.set name (createInternalQueryHandler first) q)).
    { unfold _registerCustomQueryHandler.
      destruct (JSMap.get name q); [discriminate|]. by rewrite Hv. }
    subst q1. rewrite Hfirst. cbn [fst snd]. split; [done|].
    unfold _registerCustomQueryHandler. by rewrite JSMapFacts.get_set.
Qed.

(** C5. On any registry, registering a name that matches [^[A-Za-z]+$] and
    is not registered succeeds, and resolving the name followed by a slash
    and a rest (["x"] for one) then gives the handler adapted from the raw
    handler, with the rest as the updated selector. *)
Theorem register_then_resolve (q : Registry) (n : string)
    (h : CustomQueryHandler) (rest : string) :
  JS.test_letters_only n = true ->
  JSMap.has n q = false ->
  exists q',
    _registerCustomQueryHandler n h q = (Ok tt, q')
    /\ _getQueryHandlerAndSelector (n +:+ "/" +:+ rest) q'
       = Ok {| updatedSelector := rest;
               queryHandler := createInternalQueryHandler h |}
    /\ _getQueryHandlerAndSelector (n +:+ "/x") q'
       = Ok {| updatedSelector := "x";
               queryHandler := createInternalQueryHandler h |}.
Proof.
  intros Hv Hq. unfold JSMap.has in Hq.
  exists (JSMap.set n (createInternalQueryHandler h) q).
  unfold _registerCustomQueryHandler.
  destruct (JSMap.get n q) eqn:Hget; [discriminate|].
  rewrite Hv. cbn [negb]. split; [done|].
  change (n +:+ "/x") with (n +:+ "/" +:+ "x").
  by rewrite !resolve_named, JSMapFacts.get_set by done.
Qed.

(** C6. A selector that does not match [^[A-Za-z]+/] resolves to the
    default handler with the selector unchanged, whatever it contains
    further on.  A selector that matches is a non-empty run of letters, the
    first slash of the selector, and a rest: the run is the engine name and
    the rest the updated selector, and resolution throws the unknown-engine
    error with that name when the registry has no handler under it. *)
Theorem resolve_splits_at_first_slash (selector : string) (q : Registry) :
  (JS.test_letters_slash selector = false ->
     _getQueryHandlerAndSelector selector q
     = Ok {| updatedSelector := selector; queryHandler := _defaultHandler |})
  /\ (JS.test_letters_slash selector = true ->
        exists name rest,
          selector = name +:+ "/" +:+ rest
          /\ JS.all_letters name = true /\ name <> ""
          /\ JS.indexOf "/" selector = Z.of_nat (String.length name)
          /\ _getQueryHandlerAndSelector selector q
             = match JSMap.get name q with
               | Some handler =>
                   Ok {| updatedSelector := rest; queryHandler := handler |}
               | None => Thrown (UnknownEngineError name)
               end).
Proof.
  split.
  - intros Hno. unfold _getQueryHandlerAndSelector. by rewrite Hno.
  - intros Hyes.
    destruct (JSFacts.test_letters_slash_split selector Hyes)
      as (name & rest & -> & Hname).
    exists name, rest. rewrite <- slash_append.
    pose proof Hname as Hl. apply JSFacts.test_letters_only_spec in Hl as [Hall Hne].
    split; [done|]. split; [done|]. split; [done|]. split.
    + rewrite slash_append.
      by destruct (JSFacts.cut_at_first_slash name rest Hall) as (Hi & _).
    + rewrite resolve_named by done. by destruct (JSMap.get name q).
Qed.

(** C7. No call removes a built-in engine.  Unregistering a built-in name
    or a name that is absent leaves any registry as it is;
    [_customQueryHandlerNames] lists no built-in name; and on a registry
    reached by any calls, which is the built-in entries followed by the
    custom ones, clearing leaves exactly the built-in entries, so that no
    custom name is listed any more, while both built-in names are held
    with their handlers before and after clearing and resolve to them. *)
Theorem builtins_are_never_removed (calls : list Call) :
  let q := registry_after calls in
  (forall (q' : Registry) (name : string),
      JSMap.has name builtIns = true \/ JSMap.has name q' = false ->
      unregister name q' = q')
  /\ (forall (q' : Registry) (name : string),
        name ∈ names q' -> JSMap.has name builtIns = false)
  /\ (exists customs, q = builtIns ++ customs /\ clear q = builtIns)
  /\ names (clear q) = []
  /\ (JSMap.get "aria" q = Some ariaHandler
      /\ JSMap.get "pierce" q = Some pierceHandler)
  /\ (JSMap.get "aria" (clear q) = Some ariaHandler
      /\ JSMap.get "pierce" (clear q) = Some pierceHandler)
  /\ (forall (rest : string) (q' : Registry),
        q' = q \/ q' = clear q ->
        _getQueryHandlerAndSelector ("aria" +:+ "/" +:+ rest) q'
        = Ok {| updatedSelector := rest; queryHandler := ariaHandler |}
        /\ _getQueryHandlerAndSelector ("pierce" +:+ "/" +:+ rest) q'
           = Ok {| updatedSelector := rest; queryHandler := pierceHandler |}).
Proof.
  intros q.
  destruct (after_shape ariaHandler calls) as (customs & Hq & Hok & _).
  fold q in Hq.
  assert (Hclear : clear q = builtIns) by (rewrite Hq; by apply clear_shape).
  assert (Hget : JSMap.get "aria" q = Some ariaHandler
                 /\ JSMap.get "pierce" q = Some pierceHandler).
  { rewrite Hq, !JSMapFacts.get_app. by split. }
  split; [|split; [|split; [|split; [|split; [|split]]]]].
  - intros q' name [Hb | Habs].
    + apply unregister_builtin. by rewrite <- (has_builtIn ariaHandler).
    + by apply unregister_absent.
  - intros q' name. unfold _customQueryHandlerNames.
    rewrite list_elem_of_In, List.filter_In, negb_true_iff. by intros [_ Hb].
  - by exists customs.
  - by rewrite Hclear.
  - done.
  - by rewrite Hclear.
  - intros rest q' Hq'. rewrite !resolve_named by done.
    destruct Hq' as [-> | ->].
    + destruct Hget as [-> ->]. done.
    + rewrite Hclear. done.
Qed.

(** C9. On a registry reached by any calls, after registering a valid
    custom name and unregistering it, registering the name again succeeds
    and installs the handler adapted from the new raw handler; a built-in
    name, on the contrary, is refused as a duplicate both before and after
    an attempt to unregister it. *)
Theorem unregistered_name_is_reusable (calls : list Call) (n : string)
    (h h' : CustomQueryHandler) :
  let q := registry_after calls in
  (JS.test_letters_only n = true -> isBuiltInName n = false ->
     let q2 := unregister n (snd (_registerCustomQueryHandler n h q)) in
     exists q3,
       _registerCustomQueryHandler n h' q2 = (Ok tt, q3)
       /\ JSMap.get n q3 = Some (createInternalQueryHandler h'))
  /\ (isBuiltInName n = true ->
        _registerCustomQueryHandler n h' q = (Thrown (DuplicateNameError n), q)
        /\ _registerCustomQueryHandler n h' (unregister n q)
           = (Thrown (DuplicateNameError n), unregister n q)).
Proof.
  intros q. split.
  - intros Hv Hb q2.
    assert (Hq2 : q2 = registry_after (calls ++ [CallRegister n h; CallUnregister n])).
    { unfold after. by rewrite fold_left_app. }
    destruct (after_shape ariaHandler (calls ++ [CallRegister n h; CallUnregister n]))
      as (customs & Hshape & Hok & Hkeys).
    rewrite <- Hq2 in Hshape.
    assert (Habs : JSMap.get n q2 = None).
    { rewrite Hshape, JSMapFacts.get_app, (get_builtIn_None ariaHandler n Hb).
      apply JSMapFacts.get_None_keys. rewrite Hkeys.
      unfold registration_order. rewrite fold_left_app. cbn [fold_left registration_step].
      rewrite list_elem_of_In, List.filter_In, String.eqb_refl.
      by intros [_ Hfalse]. }
    exists (JSMap.set n (createInternalQueryHandler h') q2).
    unfold _registerCustomQueryHandler. rewrite Habs, Hv. cbn [negb].
    by rewrite JSMapFacts.get_set.
  - intros Hb. rewrite unregister_builtin by done.
    destruct (get_after calls n) as (customs & _ & _ & Hget). fold q in Hget.
    destruct (get_builtIn_Some ariaHandler n Hb) as [b Hb'].
    rewrite Hb' in Hget. unfold _registerCustomQueryHandler. by rewrite Hget.
Qed.

End RegistryClaims.


(** ** The remote iterator bridge *)

Section BridgeFacts.

Lemma disposals_app h a b : disposals h (a ++ b) = disposals h a + disposals h b.
Proof.
  induction a as [|[r r'|r|r] a IH]; cbn [app disposals]; [done|done|done|].
  rewrite IH. lia.
Qed.

Lemma executions_app a b : executions (a ++ b) = executions a + executions b.
Proof.
  induction a as [|[r r'|r|r] a IH]; cbn [app executions]; rewrite ?IH; done.
Qed.

Lemma created_app a b : created (a ++ b) = created a ++ created b.
Proof.
  induction a as [|[r r'|r|r] a IH]; cbn [app created]; rewrite ?IH; done.
Qed.

Lemma probe_events_S it k n :
  probe_events it k (S n)
  = probe_events it k n ++ [Evaluated it (k + n); Disposed (k + n)].
Proof.
  unfold probe_events. rewrite seq_S, flat_map_app. cbn [flat_map].
  by rewrite app_nil_r.
Qed.

Lemma disposals_probe it k n h :
  disposals h (probe_events it k n) = if decide (k <= h < k + n) then 1 else 0.
Proof.
  induction n as [|n IH].
  - cbn. case_decide; [lia | done].
  - rewrite probe_events_S, disposals_app, IH. cbn [disposals].
    destruct (Nat.eqb_spec (k + n) h); repeat case_decide; lia.
Qed.

Lemma created_probe it k n : created (probe_events it k n) = seq k n.
Proof.
  induction n as [|n IH]; [done|].
  rewrite probe_events_S, created_app, IH, seq_S. done.
Qed.

Lemma executions_probe it k n : executions (probe_events it k n) = n.
Proof.
  induction n as [|n IH]; [done|].
  rewrite probe_events_S, executions_app, IH. cbn. lia.
Qed.

Lemma executions_pending g : executions (pending g) = 0.
Proof. by destruct g. Qed.

Context (produce : nat -> Completion) (c0 : nat) (it : JSHandle)
        (j0 : list Event) (k : nat).

(** Resuming the generator: the pending disposal is made, and the loop
    takes another turn in a world where the iterator is as it was. *)
Lemma resume_turn i w :
  bridge_at produce c0 it j0 k i w ->
  exists wr,
    generator_next (generator_after it k i) w = generate_turn it wr
    /\ heap wr !! remoteObjectId it = Some (VIterator produce (c0 + i))
    /\ fresh wr = k + i
    /\ journal wr = j0 ++ probe_events (remoteObjectId it) k i
    /\ journal wr = journal w ++ pending (generator_after it k i).
Proof.
  intros [Hit Hfresh Hbelow Hj]. destruct i as [|i].
  - exists w. cbn [generator_after generator_next pending] in *.
    unfold probe_events in *. cbn [seq flat_map] in *.
    rewrite !app_nil_r in Hj. rewrite !app_nil_r. done.
  - eexists. cbn [generator_after generator_next pending] in *.
    split; [reflexivity|]. cbn [dispose snd heap fresh journal elementHandleOf remoteObjectId].
    split; [|done]. rewrite lookup_delete_ne by lia. done.
Qed.

(** A turn of the loop whose probe produces a node yields its handle. *)
Lemma pull_yields i w node :
  bridge_at produce c0 it j0 k i w ->
  produce (c0 + i) = Normal (VNode node) ->
  exists w',
    generator_next (generator_after it k i) w
    = (Ok (IterValue (elementHandleOf (k + i))), generator_after it k (S i), w')
    /\ bridge_at produce c0 it j0 k (S i) w'
    /\ heap w' !! (k + i) = Some (VNode node)
    /\ journal w'
       = journal w ++ pending (generator_after it k i)
         ++ [Evaluated (remoteObjectId it) (k + i)].
Proof.
  intros Hat Hnode. pose proof (bridge_below _ _ _ _ _ _ _ Hat) as Hbelow.
  destruct (resume_turn i w Hat) as (wr & -> & Hit & Hfresh & Hj & Hjw).
  unfold generate_turn, evaluateHandle. rewrite Hit. cbn [nextValue].
  rewrite Hnode, Hfresh. cbn [isNode asElement isElementHandle].
  eexists. split; [reflexivity|]. split; [|split].
  - split; cbn [heap fresh journal generator_after pending elementHandleOf remoteObjectId].
    + rewrite lookup_insert_ne by lia. rewrite lookup_insert_eq.
      by rewrite Nat.add_succ_r.
    + lia.
    + done.
    + rewrite Hj, probe_events_S, <- !app_assoc. done.
  - cbn [heap]. by rewrite lookup_insert_eq.
  - cbn [journal]. by rewrite Hjw, <- app_assoc.
Qed.

(** A turn of the loop whose probe produces something else disposes the
    probe and the iterator handle, and completes the generator. *)
Lemma pull_stops i w v :
  bridge_at produce c0 it j0 k i w ->
  produce (c0 + i) = Normal v -> isNode v = false ->
  exists w',
    generator_next (generator_after it k i) w = (Ok IterDone, Completed, w')
    /\ journal w'
       = j0 ++ probe_events (remoteObjectId it) k (S i)
         ++ [Disposed (remoteObjectId it)]
    /\ heap w' !! remoteObjectId it = None
    /\ heap w' !! (k + i) = None
    /\ fresh w' = k + S i.
Proof.
  intros Hat Hv Hnot. pose proof (bridge_below _ _ _ _ _ _ _ Hat) as Hbelow.
  destruct (resume_turn i w Hat) as (wr & -> & Hit & Hfresh & Hj & Hjw).
  unfold generate_turn, evaluateHandle. rewrite Hit. cbn [nextValue].
  rewrite Hv, Hfresh, Hnot. cbn [asElement isElementHandle].
  eexists. split; [reflexivity|].
  cbn [dispose snd heap fresh journal remoteObjectId].
  split; [|split; [|split]].
  - rewrite Hj, probe_events_S, <- !app_assoc. done.
  - by rewrite lookup_delete_eq.
  - rewrite lookup_delete_ne by lia. by rewrite lookup_delete_eq.
  - lia.
Qed.

(** A turn of the loop whose probe throws completes the generator with the
    error; the iterator handle is still live and was not disposed. *)
Lemma pull_throws i w reason :
  bridge_at produce c0 it j0 k i w ->
  produce (c0 + i) = Throw reason ->
  exists w',
    generator_next (generator_after it k i) w
    = (Thrown {| message := reason |}, Completed, w')
    /\ journal w'
       = j0 ++ probe_events (remoteObjectId it) k i
         ++ [EvalFailed (remoteObjectId it)]
    /\ is_Some (heap w' !! remoteObjectId it).
Proof.
  intros Hat Hthrow.
  destruct (resume_turn i w Hat) as (wr & -> & Hit & Hfresh & Hj & Hjw).
  unfold generate_turn, evaluateHandle. rewrite Hit. cbn [nextValue].
  rewrite Hthrow. eexists. split; [reflexivity|]. cbn [heap journal].
  split; [by rewrite Hj, <- app_assoc|]. by rewrite lookup_insert_eq.
Qed.

End BridgeFacts.


Section BridgeRuns.

(** What it means for the target iterator, from the cursor [c] on, to
    produce the nodes of a list one after the other. *)
Lemma produced_nodes produce c nodes :
  List.map (fun m => produce (c + m)) (seq 0 (length nodes))
  = List.map (fun node => Normal (VNode node)) nodes ->
  forall m node, nodes !! m = Some node -> produce (c + m) = Normal (VNode node).
Proof.
  revert c. induction nodes as [|n nodes IH]; intros c Hmap m node Hm; [done|].
  cbn [length seq List.map] in Hmap. injection Hmap as Hn Hrest.
  destruct m as [|m]; cbn in Hm.
  - by simplify_eq.
  - rewrite Nat.add_succ_r, <- Nat.add_succ_l. apply IH; [|done].
    rewrite <- Hrest, <- seq_shift, List.map_map.
    apply List.map_ext. intros a. f_equal. lia.
Qed.

(** The two executions and the disposal made by [queryAll] before it hands
    out the generator. *)
Lemma queryAll_starts raw element selector w root iterable produce c :
  heap w !! remoteObjectId element = Some root ->
  raw root selector = Normal iterable ->
  getIterator iterable = (Normal (VIterator produce c), iterable) ->
  let f := fresh w in
  let it := {| remoteObjectId := S f; isElementHandle := false |} in
  exists w0,
    internal_queryAll raw element selector w = (Ok (SuspendedStart it), w0)
    /\ bridge_at produce c it
         (journal w ++ [Evaluated (remoteObjectId element) f;
                        Evaluated f (S f); Disposed f])
         (S (S f)) 0 w0.
Proof.
  intros Hroot Hraw Hiter f it.
  unfold internal_queryAll, mbind, M_bind, mret, M_ret, evaluateHandle, applied.
  rewrite Hroot, Hraw. cbn [heap fresh journal remoteObjectId].
  rewrite lookup_insert_eq, Hiter. cbn [dispose heap fresh journal remoteObjectId isNode].
  eexists. split; [reflexivity|].
  split; cbn [heap fresh journal remoteObjectId generator_after pending it].
  - rewrite lookup_delete_ne by (subst f; lia). rewrite lookup_insert_eq.
    by rewrite Nat.add_0_r.
  - subst f. lia.
  - subst f. lia.
  - unfold probe_events. cbn [seq flat_map]. rewrite !app_nil_r, <- !app_assoc. done.
Qed.

Context (produce : nat -> Completion) (c0 : nat) (it : JSHandle)
        (j0 : list Event) (k : nat).

(** As long as the iterator produces nodes, each pull yields the handle of
    the next one, which refers to that node when it is handed over. *)
Lemma pulls_yield_all nodes : forall i w,
  bridge_at produce c0 it j0 k i w ->
  (forall m node, nodes !! m = Some node ->
                  produce (c0 + i + m) = Normal (VNode node)) ->
  exists w',
    pulls (length nodes) (generator_after it k i) w
    = (imap (fun m node => (elementHandleOf (k + i + m), Some (VNode node))) nodes,
       generator_after it k (i + length nodes), w')
    /\ bridge_at produce c0 it j0 k (i + length nodes) w'.
Proof.
  induction nodes as [|node nodes IH]; intros i w Hat Hnodes.
  - exists w. cbn [length pulls imap]. by rewrite Nat.add_0_r.
  - assert (Hnode : produce (c0 + i) = Normal (VNode node)).
    { rewrite <- (Nat.add_0_r (c0 + i)). by apply Hnodes. }
    destruct (pull_yields produce c0 it j0 k i w node Hat Hnode)
      as (w1 & Hnext & Hat1 & Hrefers & _).
    destruct (IH (S i) w1 Hat1) as (w' & Hpulls & Hat').
    { intros m n Hm. replace (c0 + S i + m) with (c0 + i + S m) by lia.
      by apply Hnodes. }
    exists w'. cbn [length pulls]. rewrite Hnext, Hpulls.
    cbn [elementHandleOf remoteObjectId]. rewrite Hrefers.
    replace (i + S (length nodes)) with (S i + length nodes) by lia.
    split; [|done]. cbn [imap]. rewrite Nat.add_0_r. do 3 f_equal.
    apply imap_ext. intros m n _. cbn. do 2 f_equal. lia.
Qed.

(** [Iterable.map] over a sequence that reaches a value which is not a
    node: every handle is passed to the callback, and the journal is that
    of a full course of the bridge. *)
Lemma map_drains {U} (f : JSHandle -> U) nodes v : forall i w fuel,
  bridge_at produce c0 it j0 k i w ->
  (forall m node, nodes !! m = Some node ->
                  produce (c0 + i + m) = Normal (VNode node)) ->
  produce (c0 + i + length nodes) = Normal v -> isNode v = false ->
  length nodes < fuel ->
  exists w',
    Iterable.map fuel (generator_after it k i) (fun h _ => f h) w
    = Some (Ok (imap (fun m _ => f (elementHandleOf (k + i + m))) nodes),
            Completed, w')
    /\ journal w'
       = j0 ++ probe_events (remoteObjectId it) k (S (i + length nodes))
         ++ [Disposed (remoteObjectId it)]
    /\ heap w' !! remoteObjectId it = None
    /\ fresh w' = k + S (i + length nodes).
Proof.
  induction nodes as [|node nodes IH]; intros i w fuel Hat Hnodes Hv Hnot Hfuel.
  - cbn [length] in *. rewrite Nat.add_0_r in *.
    destruct fuel as [|fuel]; [lia|].
    destruct (pull_stops produce c0 it j0 k i w v Hat Hv Hnot)
      as (w' & Hnext & Hj & Hgone & _ & Hfresh).
    exists w'. cbn [Iterable.map imap]. by rewrite Hnext.
  - cbn [length] in *. destruct fuel as [|fuel]; [lia|].
    assert (Hnode : produce (c0 + i) = Normal (VNode node)).
    { rewrite <- (Nat.add_0_r (c0 + i)). by apply Hnodes. }
    destruct (pull_yields produce c0 it j0 k i w node Hat Hnode)
      as (w1 & Hnext & Hat1 & _).
    destruct (IH (S i) w1 fuel Hat1) as (w' & Hmap & Hj & Hgone & Hfresh).
    { intros m n Hm. replace (c0 + S i + m) with (c0 + i + S m) by lia.
      by apply Hnodes. }
    { by replace (c0 + S i + length nodes) with (c0 + i + S (length nodes)) by lia. }
    { done. }
    { lia. }
    exists w'. cbn [Iterable.map]. rewrite Hnext, Hmap.
    replace (i + S (length nodes)) with (S i + length nodes) by lia.
    split; [|done]. cbn [imap]. rewrite Nat.add_0_r.
    rewrite (imap_ext (fun m _ => f (elementHandleOf (k + S i + m)))
               ((fun m _ => f (elementHandleOf (k + i + m))) ∘ S) nodes); [done|].
    intros m n _. cbn. do 2 f_equal. lia.
Qed.

(** [Iterable.first] over a sequence whose first value is a node: the
    generator is closed right after the first pull, and the iterator handle
    stays live, with no disposal of it in the journal. *)
Lemma first_abandons_iterator w node :
  bridge_at produce c0 it j0 k 0 w ->
  produce c0 = Normal (VNode node) ->
  exists w',
    Iterable.first (SuspendedStart it) w
    = (Ok (Some (elementHandleOf k)), Completed, w')
    /\ journal w' = journal w ++ [Evaluated (remoteObjectId it) k]
    /\ is_Some (heap w' !! remoteObjectId it).
Proof.
  intros Hat Hnode. rewrite <- (Nat.add_0_r c0) in Hnode.
  destruct (pull_yields produce c0 it j0 k 0 w node Hat Hnode)
    as (w' & Hnext & [Hit _ _ _] & _ & Hj).
  cbn [generator_after pending app] in Hnext, Hj. rewrite Nat.add_0_r in Hnext, Hj.
  exists w'. unfold Iterable.first. rewrite Hnext. cbn [generator_return].
  split; [done|]. split; [done|]. by eexists.
Qed.

End BridgeRuns.


(** ** The adapted handlers *)

Section AdapterClaims.

(** C1. When [queryAll] of the raw handler returns an iterable whose
    iterator produces the nodes of [nodes] one after the other, the adapted
    [queryAll] returns a lazy sequence whose first pulls yield, in that
    order, one element handle per node, each referring to its node when it
    is handed over.  Each pull makes exactly one remote execution, the call
    of [next()], so that after [n] pulls the target iterator was advanced
    [n] times and no further. If the value produced next is not a node, the
    following pull makes one more execution, disposes the handle of that
    value and the iterator handle, and ends the sequence. *)
Theorem queryAll_yields_elements_in_order (raw : RawQuery) (element : JSHandle)
    (selector : string) (w : World) (root iterable : Value)
    (produce : nat -> Completion) (c : nat) (nodes : list nat) :
  heap w !! remoteObjectId element = Some root ->
  raw root selector = Normal iterable ->
  getIterator iterable = (Normal (VIterator produce c), iterable) ->
  List.map (fun m => produce (c + m)) (seq 0 (length nodes))
  = List.map (fun node => Normal (VNode node)) nodes ->
  let it := S (fresh w) in
  let k := S (S (fresh w)) in
  exists g0 w0 g w',
    internal_queryAll raw element selector w = (Ok g0, w0)
    /\ pulls (length nodes) g0 w0
       = (imap (fun m node => (elementHandleOf (k + m), Some (VNode node))) nodes,
          g, w')
    /\ journal w' ++ pending g = journal w0 ++ probe_events it k (length nodes)
    /\ executions (journal w') = executions (journal w0) + length nodes
    /\ heap w' !! it = Some (VIterator produce (c + length nodes))
    /\ forall v, produce (c + length nodes) = Normal v -> isNode v = false ->
         exists w'',
           generator_next g w' = (Ok IterDone, Completed, w'')
           /\ journal w''
              = journal w' ++ pending g
                ++ [Evaluated it (k + length nodes);
                    Disposed (k + length nodes); Disposed it]
           /\ heap w'' !! (k + length nodes) = None
           /\ generator_next Completed w'' = (Ok IterDone, Completed, w'').
Proof.
  intros Hroot Hraw Hiter Hnodes it k.
  pose proof (produced_nodes produce c nodes Hnodes) as Hprod.
  destruct (queryAll_starts raw element selector w root iterable produce c
              Hroot Hraw Hiter) as (w0 & Hstart & Hat0).
  cbv zeta in Hstart, Hat0. fold it k in Hstart, Hat0.
  set (ith := {| remoteObjectId := it; isElementHandle := false |}) in *.
  set (j0 := journal w ++ _) in Hat0.
  destruct (pulls_yield_all produce c ith j0 k nodes 0 w0 Hat0)
    as (w' & Hpulls & Hat').
  { intros m node Hm. rewrite Nat.add_0_r. by apply Hprod. }
  cbn [Nat.add] in Hpulls, Hat'.
  change (generator_after ith k 0) with (SuspendedStart ith) in Hpulls.
  destruct Hat0 as [_ _ _ Hj0]. cbn [generator_after pending] in Hj0.
  unfold probe_events in Hj0. cbn [seq flat_map] in Hj0.
  rewrite !app_nil_r in Hj0.
  pose proof Hat' as [Hit' Hfresh' Hbelow' Hj']. cbn [remoteObjectId ith] in *.
  exists (SuspendedStart ith), w0, (generator_after ith k (length nodes)), w'.
  split; [done|]. split.
  { rewrite Hpulls. f_equal. f_equal. apply imap_ext. intros m n _.
    cbn. by rewrite Nat.add_0_r. }
  split; [by rewrite Hj', Hj0|]. split.
  { apply (f_equal executions) in Hj'.
    rewrite !executions_app, executions_pending, executions_probe in Hj'.
    rewrite Hj0. lia. }
  split; [done|].
  intros v Hv Hnot.
  destruct (pull_stops produce c ith j0 k (length nodes) w' v Hat' Hv Hnot)
    as (w'' & Hnext & Hj'' & _ & Hgone & _).
  exists w''. split; [done|]. split; [|done].
  rewrite Hj'', probe_events_S, (app_assoc (journal w')), Hj', <- !app_assoc.
  done.
Qed.

(** The path of exhaustion.  When [queryAll] of the raw handler returns an
    iterable whose iterator produces the nodes of [nodes] and then a value
    that is not a node, and the consumer reads the sequence to its end,
    every handle created by the bridge, that is the iterable handle, the
    iterator handle and the result handle of each probe, is disposed
    exactly once. *)
Theorem bridge_handles_disposed_once_on_exhaustion (raw : RawQuery)
    (element : JSHandle) (selector : string) (w : World) (root iterable : Value)
    (produce : nat -> Completion) (c : nat) (nodes : list nat) (v : Value)
    (fuel : nat) :
  heap w !! remoteObjectId element = Some root ->
  raw root selector = Normal iterable ->
  getIterator iterable = (Normal (VIterator produce c), iterable) ->
  List.map (fun m => produce (c + m)) (seq 0 (length nodes))
  = List.map (fun node => Normal (VNode node)) nodes ->
  produce (c + length nodes) = Normal v -> isNode v = false ->
  length nodes < fuel ->
  exists g0 w0 w' evs,
    internal_queryAll raw element selector w = (Ok g0, w0)
    /\ Iterable.map fuel g0 (fun h _ => h) w0
       = Some (Ok (imap (fun m _ => elementHandleOf (S (S (fresh w)) + m)) nodes),
               Completed, w')
    /\ journal w' = journal w ++ evs
    /\ created evs = seq (fresh w) (length nodes + 3)
    /\ disposed_exactly_once evs.
Proof.
  intros Hroot Hraw Hiter Hnodes Hv Hnot Hfuel.
  pose proof (produced_nodes produce c nodes Hnodes) as Hprod.
  destruct (queryAll_starts raw element selector w root iterable produce c
              Hroot Hraw Hiter) as (w0 & Hstart & Hat0).
  cbv zeta in Hstart, Hat0.
  set (f := fresh w) in *.
  set (ith := {| remoteObjectId := S f; isElementHandle := false |}) in *.
  set (j0 := journal w ++ _) in Hat0.
  assert (Hprod0 : forall m node, nodes !! m = Some node ->
                     produce (c + 0 + m) = Normal (VNode node)).
  { intros m node Hm. rewrite Nat.add_0_r. by apply Hprod. }
  assert (Hv0 : produce (c + 0 + length nodes) = Normal v)
    by by rewrite Nat.add_0_r.
  destruct (map_drains produce c ith j0 (S (S f)) (fun h => h) nodes v 0 w0 fuel
              Hat0 Hprod0 Hv0 Hnot Hfuel) as (w' & Hmap & Hj & _ & _).
  cbn [Nat.add remoteObjectId ith] in Hmap, Hj.
  change (generator_after ith (S (S f)) 0) with (SuspendedStart ith) in Hmap.
  exists (SuspendedStart ith), w0, w'.
  exists ([Evaluated (remoteObjectId element) f; Evaluated f (S f); Disposed f]
          ++ probe_events (S f) (S (S f)) (S (length nodes)) ++ [Disposed (S f)]).
  split; [done|]. split.
  { rewrite Hmap.
    rewrite (imap_ext (fun m _ => elementHandleOf (S (S (f + 0 + m))))
               (fun m _ => elementHandleOf (S (S f) + m)) nodes); [done|].
    intros m n _. cbn. by rewrite Nat.add_0_r. }
  split; [rewrite Hj; subst j0; by rewrite <- !app_assoc|].
  assert (Hcreated :
    created ([Evaluated (remoteObjectId element) f; Evaluated f (S f); Disposed f]
             ++ probe_events (S f) (S (S f)) (S (length nodes)) ++ [Disposed (S f)])
    = seq f (length nodes + 3)).
  { rewrite !created_app, created_probe. cbn [created]. rewrite app_nil_r.
    replace (length nodes + 3) with (2 + S (length nodes)) by lia.
    reflexivity. }
  split; [done|].
  intros h Hh. rewrite Hcreated in Hh. apply elem_of_seq in Hh.
  rewrite !disposals_app, disposals_probe. cbn [disposals].
  destruct (Nat.eqb_spec f h), (Nat.eqb_spec (S f) h); case_decide; lia.
Qed.

(** C3. Whatever the root and the selector.  On a live root, when the raw
    function returns a node, the adapted [queryOne] returns the new element
    handle, which refers to that node; when the raw function returns a
    value that is not a node, it disposes the handle of that value and
    returns [null]; when the raw function throws, or the root handle was
    released, it throws.  Conversely, a handle that it returns passes the
    element classification and refers to the node that the raw function
    returned; [null] is returned only for a value that is not a node, whose
    handle was disposed; and a throw creates no handle and comes from the
    raw function or from a released root. *)
Theorem queryOne_returns_elements_only (raw : RawQuery) (element : JSHandle)
    (selector : string) (w : World) :
  match internal_queryOne raw element selector w with
  | (Ok (Some handle), w') =>
      asElement handle = Some handle
      /\ exists root node,
           heap w !! remoteObjectId element = Some root
           /\ raw root selector = Normal (VNode node)
           /\ heap w' !! remoteObjectId handle = Some (VNode node)
           /\ journal w'
              = journal w ++ [Evaluated (remoteObjectId element)
                                        (remoteObjectId handle)]
  | (Ok None, w') =>
      exists root v,
        heap w !! remoteObjectId element = Some root
        /\ raw root selector = Normal v /\ isNode v = false
        /\ journal w'
           = journal w ++ [Evaluated (remoteObjectId element) (fresh w);
                           Disposed (fresh w)]
        /\ heap w' !! fresh w = None
  | (Thrown e, w') =>
      created (journal w') = created (journal w)
      /\ (heap w !! remoteObjectId element = None
          \/ exists root,
               heap w !! remoteObjectId element = Some root
               /\ raw root selector = Throw (message e))
  end
  /\ (forall root node,
        heap w !! remoteObjectId element = Some root ->
        raw root selector = Normal (VNode node) ->
        exists w',
          internal_queryOne raw element selector w
          = (Ok (Some (elementHandleOf (fresh w))), w')
          /\ asElement (elementHandleOf (fresh w)) = Some (elementHandleOf (fresh w))
          /\ heap w' !! fresh w = Some (VNode node)
          /\ journal w'
             = journal w ++ [Evaluated (remoteObjectId element) (fresh w)])
  /\ (forall root v,
        heap w !! remoteObjectId element = Some root ->
        raw root selector = Normal v -> isNode v = false ->
        exists w',
          internal_queryOne raw element selector w = (Ok None, w')
          /\ heap w' !! fresh w = None
          /\ journal w'
             = journal w ++ [Evaluated (remoteObjectId element) (fresh w);
                             Disposed (fresh w)])
  /\ (forall root reason,
        heap w !! remoteObjectId element = Some root ->
        raw root selector = Throw reason ->
        exists w',
          internal_queryOne raw element selector w
          = (Thrown {| message := reason |}, w')
          /\ journal w' = journal w ++ [EvalFailed (remoteObjectId element)])
  /\ (heap w !! remoteObjectId element = None ->
      exists e w',
        internal_queryOne raw element selector w = (Thrown e, w')
        /\ journal w' = journal w ++ [EvalFailed (remoteObjectId element)]).
Proof.
  unfold internal_queryOne, mbind, M_bind, mret, M_ret, evaluateHandle, applied.
  split; [|split; [|split; [|split]]].
  - destruct (heap w !! remoteObjectId element) as [root|] eqn:Hroot.
    2:{ cbn [journal]. rewrite created_app, app_nil_r. split; [done | by left]. }
    destruct (raw root selector) as [v|reason] eqn:Hraw.
    2:{ cbn [journal message]. rewrite created_app, app_nil_r.
        split; [done|]. right. by exists root. }
    destruct v as [| |node|tag|p|p cur];
      cbn [isNode asElement isElementHandle dispose heap fresh journal
           remoteObjectId].
    3:{ split; [done|]. exists root, node. by rewrite lookup_insert_eq. }
    all: eexists root, _; rewrite lookup_delete_eq, <- app_assoc; done.
  - intros root node -> ->.
    cbn [isNode asElement isElementHandle heap fresh journal remoteObjectId].
    eexists. split; [reflexivity|]. cbn [heap journal].
    split; [done|]. by rewrite lookup_insert_eq.
  - intros root v -> -> Hv. rewrite Hv.
    cbn [asElement isElementHandle dispose heap fresh journal remoteObjectId].
    eexists. split; [reflexivity|]. cbn [heap journal].
    by rewrite lookup_delete_eq, <- app_assoc.
  - intros root reason -> ->. eexists. split; [reflexivity|]. done.
  - intros ->. eexists _, _. split; [reflexivity|]. done.
Qed.

End AdapterClaims.

Section CapabilityClaims.
Context `{Host}.

(** C8. The adapted handler has [queryOne] and [waitFor] exactly when the
    raw handler has [queryOne], and [queryAll] and [queryAllArray] exactly
    when the raw handler has [queryAll]; a capability that is present is the
    adaptation of the raw function, and one that is absent is left out. *)
Theorem adapter_mirrors_capabilities (handler : CustomQueryHandler) :
  let internal := createInternalQueryHandler handler in
  (queryOne internal = internal_queryOne <$> rawQueryOne handler
   /\ waitFor internal = internal_waitFor <$> rawQueryOne handler
   /\ queryAll internal = internal_queryAll <$> rawQueryAll handler
   /\ queryAllArray internal = internal_queryAllArray <$> rawQueryAll handler)
  /\ (is_Some (queryOne internal) <-> is_Some (rawQueryOne handler))
  /\ (is_Some (waitFor internal) <-> is_Some (rawQueryOne handler))
  /\ (is_Some (queryAll internal) <-> is_Some (rawQueryAll handler))
  /\ (is_Some (queryAllArray internal) <-> is_Some (rawQueryAll handler)).
Proof.
  intros internal.
  assert (Heq : queryOne internal = internal_queryOne <$> rawQueryOne handler
   /\ waitFor internal = internal_waitFor <$> rawQueryOne handler
   /\ queryAll internal = internal_queryAll <$> rawQueryAll handler
   /\ queryAllArray internal = internal_queryAllArray <$> rawQueryAll handler).
  { subst internal. by destruct handler as [[one|] [all|]]. }
  split; [done|]. destruct Heq as (-> & -> & -> & ->).
  by rewrite !fmap_is_Some.
Qed.

End CapabilityClaims.


(** ** Instances on the sample data *)

Section Instances.

(** The sequence over [a, b, c]: three pulls yield the handles 3, 4 and 5
    of the three nodes, with three executions. *)
Lemma queryAll_yields_elements_in_order_witness :
  exists g0 w0 g w',
    internal_queryAll Sample.abc Sample.root "x" Sample.world = (Ok g0, w0)
    /\ pulls 3 g0 w0
       = ([(elementHandleOf 3, Some (VNode 1));
           (elementHandleOf 4, Some (VNode 2));
           (elementHandleOf 5, Some (VNode 3))], g, w')
    /\ executions (journal w') = executions (journal w0) + 3
    /\ exists w'',
         generator_next g w' = (Ok IterDone, Completed, w'')
         /\ journal w''
            = journal w' ++ pending g ++ [Evaluated 2 6; Disposed 6; Disposed 2].
Proof.
  destruct (queryAll_yields_elements_in_order
              Sample.abc Sample.root "x" Sample.world (VNode 0)
              (VIterable (of_list [VNode 1; VNode 2; VNode 3]))
              (of_list [VNode 1; VNode 2; VNode 3]) 0 [1; 2; 3])
    as (g0 & w0 & g & w' & Hstart & Hpulls & _ & Hexec & _ & Hstop);
    [reflexivity | reflexivity | reflexivity | reflexivity |].
  destruct (Hstop VUndefined) as (w'' & Hnext & Hj & _);
    [reflexivity | reflexivity |].
  exists g0, w0, g, w'. split; [exact Hstart|]. split; [exact Hpulls|].
  split; [exact Hexec|]. exists w''. split; [exact Hnext | exact Hj].
Defined.

(** The sequence over [a, b, c] read to its end by [Iterable.map]: the six
    handles 1 to 6 are created and each is disposed once. *)
Lemma bridge_handles_disposed_once_on_exhaustion_witness :
  exists g0 w0 w' evs,
    internal_queryAll Sample.abc Sample.root "x" Sample.world = (Ok g0, w0)
    /\ Iterable.map 4 g0 (fun h _ => h) w0
       = Some (Ok [elementHandleOf 3; elementHandleOf 4; elementHandleOf 5],
               Completed, w')
    /\ journal w' = journal Sample.world ++ evs
    /\ created evs = [1; 2; 3; 4; 5; 6]
    /\ disposed_exactly_once evs.
Proof.
  exact (bridge_handles_disposed_once_on_exhaustion
           Sample.abc Sample.root "x" Sample.world (VNode 0)
           (VIterable (of_list [VNode 1; VNode 2; VNode 3]))
           (of_list [VNode 1; VNode 2; VNode 3]) 0 [1; 2; 3] VUndefined 4
           eq_refl eq_refl eq_refl eq_refl eq_refl eq_refl
           (le_n_S 3 3 (le_n 3))).
Defined.

(** C2, as stated, fails.  [Iterable.first] over the sequence for
    [a, b, c] takes the first handle and closes the generator: the iterator
    handle 2 was created, is still live and was never disposed.  And when
    [queryAll] of the raw handler returns [null], asking for its iterator
    throws, and the iterable handle 1, acquired before, is not disposed. *)
Lemma abandoned_iterator_handle_is_not_disposed :
  (exists g w w',
     internal_queryAll Sample.abc Sample.root "x" Sample.world = (Ok g, w)
     /\ Iterable.first g w = (Ok (Some (elementHandleOf 3)), Completed, w')
     /\ journal w' = [Evaluated 0 1; Evaluated 1 2; Disposed 1; Evaluated 2 3]
     /\ is_Some (heap w' !! 2)
     /\ ~ disposed_exactly_once (journal w'))
  /\ (exists e w',
        internal_queryAll Sample.nothing Sample.root "x" Sample.world
        = (Thrown e, w')
        /\ journal w' = [Evaluated 0 1; EvalFailed 1]
        /\ is_Some (heap w' !! 1)
        /\ ~ disposed_exactly_once (journal w')).
Proof.
  split.
  - eexists _, _, _. split; [reflexivity|]. split; [reflexivity|].
    split; [reflexivity|]. split; [by eexists|].
    intros Hall. specialize (Hall 2). cbn in Hall.
    assert (H2 : 2 ∈ [1; 2; 3]) by (apply list_elem_of_In; cbn; tauto).
    specialize (Hall H2). discriminate Hall.
  - eexists _, _. split; [reflexivity|]. split; [reflexivity|].
    split; [by eexists|].
    intros Hall. specialize (Hall 1). cbn in Hall.
    assert (H1 : 1 ∈ [1]) by (apply list_elem_of_In; cbn; tauto).
    specialize (Hall H1). discriminate Hall.
Qed.

(** Registering ["custom"] on the registry at load time, then resolving
    ["custom/x"]. *)
Lemma register_then_resolve_witness :
  exists q',
    @_registerCustomQueryHandler Sample.host "custom" Sample.handler
      (queryHandlers0 Sample.aria) = (Ok tt, q')
    /\ _getQueryHandlerAndSelector ("custom" +:+ "/" +:+ "x") q'
       = Ok {| updatedSelector := "x";
               queryHandler := createInternalQueryHandler Sample.handler |}
    /\ _getQueryHandlerAndSelector ("custom" +:+ "/x") q'
       = Ok {| updatedSelector := "x";
               queryHandler := createInternalQueryHandler Sample.handler |}.
Proof.
  exact (@register_then_resolve Sample.host (queryHandlers0 Sample.aria)
           "custom" Sample.handler "x" eq_refl eq_refl).
Defined.

(** A second registration of ["custom"] is refused as a duplicate, and
    ["ab-c"] is refused as invalid; the registry is the same afterwards. *)
Lemma register_failure_is_atomic_witness :
  (let q := after Sample.aria [CallRegister "custom" Sample.handler] in
   _registerCustomQueryHandler "custom" Sample.handler q
   = (Thrown (DuplicateNameError "custom"), q))
  /\ (let q := after Sample.aria [] in
      _registerCustomQueryHandler "ab-c" Sample.handler q
      = (Thrown InvalidNameError, q)).
Proof.
  split.
  - exact (proj1 (@register_failure_is_atomic Sample.host Sample.aria
                    [CallRegister "custom" Sample.handler] "custom" Sample.handler)
                 eq_refl).
  - exact (proj1 (proj2 (@register_failure_is_atomic Sample.host Sample.aria
                           [] "ab-c" Sample.handler))
                 eq_refl).
Defined.

(** ["div.a/b"] has a slash but no engine prefix and goes to the default
    handler; ["pierce/x/y"] is cut at its first slash. *)
Lemma resolve_splits_at_first_slash_witness :
  _getQueryHandlerAndSelector "div.a/b" (queryHandlers0 Sample.aria)
  = Ok {| updatedSelector := "div.a/b"; queryHandler := @_defaultHandler Sample.host |}
  /\ exists name rest,
       "pierce/x/y" = name +:+ "/" +:+ rest
       /\ JS.all_letters name = true /\ name <> ""
       /\ JS.indexOf "/" "pierce/x/y" = Z.of_nat (String.length name)
       /\ _getQueryHandlerAndSelector "pierce/x/y" (queryHandlers0 Sample.aria)
          = match JSMap.get name (queryHandlers0 Sample.aria) with
            | Some handler =>
                Ok {| updatedSelector := rest; queryHandler := handler |}
            | None => Thrown (UnknownEngineError name)
            end.
Proof.
  split.
  - exact (proj1 (@resolve_splits_at_first_slash Sample.host "div.a/b"
                    (queryHandlers0 Sample.aria)) eq_refl).
  - exact (proj2 (@resolve_splits_at_first_slash Sample.host "pierce/x/y"
                    (queryHandlers0 Sample.aria)) eq_refl).
Defined.

(** Unregistering ["aria"] leaves the registry at load time as it is. *)
Lemma builtins_are_never_removed_witness :
  _unregisterCustomQueryHandler Sample.aria "aria" (queryHandlers0 Sample.aria)
  = queryHandlers0 Sample.aria.
Proof.
  exact (proj1 (@builtins_are_never_removed Sample.host Sample.aria [])
               (queryHandlers0 Sample.aria) "aria" (or_introl eq_refl)).
Defined.

(** ["custom"] can be registered again once it was unregistered, while
    ["aria"] is refused. *)
Lemma unregistered_name_is_reusable_witness :
  (let q := after Sample.aria [] in
   let q2 := _unregisterCustomQueryHandler Sample.aria "custom"
               (snd (_registerCustomQueryHandler "custom" Sample.handler q)) in
   exists q3,
     _registerCustomQueryHandler "custom" Sample.handler q2 = (Ok tt, q3)
     /\ JSMap.get "custom" q3 = Some (createInternalQueryHandler Sample.handler))
  /\ (let q := after Sample.aria [] in
      _registerCustomQueryHandler "aria" Sample.handler q
      = (Thrown (DuplicateNameError "aria"), q)
      /\ _registerCustomQueryHandler "aria" Sample.handler
           (_unregisterCustomQueryHandler Sample.aria "aria" q)
         = (Thrown (DuplicateNameError "aria"),
            _unregisterCustomQueryHandler Sample.aria "aria" q)).
Proof.
  split.
  - exact (proj1 (@unregistered_name_is_reusable Sample.host Sample.aria []
                    "custom" Sample.handler Sample.handler) eq_refl eq_refl).
  - exact (proj2 (@unregistered_name_is_reusable Sample.host Sample.aria []
                    "aria" Sample.handler Sample.handler) eq_refl).
Defined.

End Instances.


(** * Further properties *)

(** ** More on the map and on the strings *)

Section MoreMapFacts.
Context {V : Type}.
Implicit Types (m : JSMap.t V) (k : string) (v : V).

Lemma get_set_other k k' v m :
  k <> k' -> JSMap.get k' (JSMap.set k v m) = JSMap.get k' m.
Proof.
  intros Hne. induction m as [|[a x] m IH]; cbn [JSMap.set JSMap.get].
  - destruct (String.eqb_spec k k'); [done | done].
  - destruct (String.eqb_spec a k) as [->|Hak]; cbn [JSMap.get].
    + destruct (String.eqb_spec k k'); [done | done].
    + destruct (String.eqb_spec a k'); [done | apply IH].
Qed.

Lemma get_delete_other k k' m :
  k <> k' -> JSMap.get k' (JSMap.delete k m) = JSMap.get k' m.
Proof.
  intros Hne. induction m as [|[a x] m IH]; cbn [JSMap.delete JSMap.get]; [done|].
  destruct (String.eqb_spec a k) as [->|Hak]; cbn [JSMap.get].
  - destruct (String.eqb_spec k k'); [done | done].
  - destruct (String.eqb_spec a k'); [done | apply IH].
Qed.

Lemma get_delete_same k m :
  NoDup (JSMap.keys m) -> JSMap.get k (JSMap.delete k m) = None.
Proof.
  induction m as [|[a x] m IH]; cbn [JSMap.delete JSMap.get JSMap.keys List.map fst];
    [done|].
  rewrite NoDup_cons. intros [Ha Hnd].
  destruct (String.eqb_spec a k) as [->|Hak]; cbn [JSMap.get].
  - by apply JSMapFacts.get_None_keys.
  - destruct (String.eqb_spec a k); [done | by apply IH].
Qed.

End MoreMapFacts.

Section MoreStringFacts.

Lemma append_empty_r s : s +:+ "" = s.
Proof.
  induction s as [|c s IH]; [done|].
  change (String c (s +:+ "") = String c s). by rewrite IH.
Qed.

Lemma append_assoc a b c : (a +:+ b) +:+ c = a +:+ (b +:+ c).
Proof.
  induction a as [|x a IH]; [done|].
  change (String x ((a +:+ b) +:+ c) = String x (a +:+ (b +:+ c))).
  by rewrite IH.
Qed.

(** A text with no slash before a slash is cut in one way only. *)
Lemma first_slash_unique_from a b x y i j :
  (0 <= i)%Z -> (0 <= j)%Z ->
  JS.indexOf_from "/" a i = (-1)%Z -> JS.indexOf_from "/" b j = (-1)%Z ->
  a +:+ String "/"%char x = b +:+ String "/"%char y -> a = b.
Proof.
  revert b i j. induction a as [|c a IH]; intros [|d b] i j Hi Hj Ha Hb Heq.
  - done.
  - change (String "/"%char x = String d (b +:+ String "/"%char y)) in Heq.
    injection Heq as <- _. cbn [JS.indexOf_from] in Hb.
    rewrite Ascii.eqb_refl in Hb. lia.
  - change (String c (a +:+ String "/"%char x) = String "/"%char y) in Heq.
    injection Heq as -> _. cbn [JS.indexOf_from] in Ha.
    rewrite Ascii.eqb_refl in Ha. lia.
  - change (String c (a +:+ String "/"%char x)
            = String d (b +:+ String "/"%char y)) in Heq.
    injection Heq as <- Heq. cbn [JS.indexOf_from] in Ha, Hb.
    destruct (Ascii.eqb c "/"); [lia|]. f_equal.
    apply (IH b (i + 1)%Z (j + 1)%Z); [lia | lia | done | done | done].
Qed.

Lemma first_slash_unique a b x y :
  JS.indexOf "/" a = (-1)%Z -> JS.indexOf "/" b = (-1)%Z ->
  a +:+ String "/"%char x = b +:+ String "/"%char y -> a = b.
Proof. by apply first_slash_unique_from. Qed.

Lemma indexOf_from_shift c s i :
  JS.indexOf_from c s i = (-1)%Z \/ (i <= JS.indexOf_from c s i)%Z.
Proof.
  revert i. induction s as [|a s IH]; intros i; cbn [JS.indexOf_from]; [by left|].
  destruct (Ascii.eqb a c); [right; lia|].
  destruct (IH (i + 1)%Z); [by left | right; lia].
Qed.

(** A text with no slash does not match [^[a-zA-Z]+/]. *)
Lemma no_slash_no_prefix s :
  JS.indexOf "/" s = (-1)%Z -> JS.test_letters_slash s = false.
Proof.
  intros Hno. destruct (JS.test_letters_slash s) eqn:Htest; [|done].
  destruct (JSFacts.test_letters_slash_split s Htest) as (name & rest & -> & Hname).
  apply JSFacts.test_letters_only_spec in Hname as [Hall _].
  unfold JS.indexOf in Hno. rewrite JSFacts.indexOf_from_letters in Hno by done.
  lia.
Qed.

End MoreStringFacts.


(** ** More on the registry and on resolution *)

Section RegistryExtras.
Context `{Host} (ariaHandler : InternalQueryHandler).

Local Abbreviation builtIns := (builtInHandlers ariaHandler).
Local Abbreviation unregister := (_unregisterCustomQueryHandler ariaHandler).
Local Abbreviation names := (_customQueryHandlerNames ariaHandler).
Local Abbreviation registry_after := (after ariaHandler).

(** X1. After any calls of the interface the keys of the registry are
    pairwise distinct, each of them matches [^[a-zA-Z]+$], and they are the
    two built-in names followed by the names that
    [_customQueryHandlerNames] returns. *)
Theorem registry_keys_valid_and_distinct (calls : list Call) :
  let q := registry_after calls in
  NoDup (JSMap.keys q)
  /\ Forall (fun k => JS.test_letters_only k = true) (JSMap.keys q)
  /\ JSMap.keys q = ["aria"; "pierce"] ++ names q.
Proof.
  intros q. destruct (after_shape ariaHandler calls) as (customs & Hq & Hok & _).
  fold q in Hq. rewrite Hq, names_shape by done.
  unfold JSMap.keys. rewrite List.map_app.
  change (List.map fst builtIns) with ["aria"; "pierce"].
  destruct Hok as [Hnd Hall]. unfold JSMap.keys in *.
  split; [|split; [|done]].
  - apply NoDup_app. split; [|split; [|done]].
    + apply NoDup_cons. split; [|apply NoDup_singleton].
      rewrite list_elem_of_singleton. discriminate.
    + intros k Hk Hin. rewrite Forall_forall in Hall.
      destruct (Hall _ Hin) as [_ Hnb].
      apply elem_of_cons in Hk as [->|Hk]; [discriminate Hnb|].
      apply list_elem_of_singleton in Hk as ->. discriminate Hnb.
  - apply Forall_app. split.
    + repeat constructor.
    + eapply Forall_impl; [exact Hall|]. by intros k [Hv _].
Qed.

(** X2. Registering a name and unregistering it gives back the registry
    one started from, entry for entry and in the same order. *)
Theorem register_unregister_round_trip (q : Registry) (n : string)
    (h : CustomQueryHandler) :
  JS.test_letters_only n = true ->
  JSMap.has n q = false ->
  JSMap.has n builtIns = false ->
  fst (_registerCustomQueryHandler n h q) = Ok tt
  /\ unregister n (snd (_registerCustomQueryHandler n h q)) = q.
Proof.
  intros Hv Hq Hb. unfold JSMap.has in Hq.
  destruct (JSMap.get n q) eqn:Hget; [discriminate|].
  unfold _registerCustomQueryHandler. rewrite Hget, Hv. cbn [negb fst snd].
  split; [done|]. rewrite JSMapFacts.set_absent by done.
  unfold _unregisterCustomQueryHandler. rewrite Hb. cbn [negb].
  unfold JSMap.has. rewrite JSMapFacts.get_app, Hget.
  cbn [JSMap.get]. rewrite String.eqb_refl. cbn [andb].
  rewrite JSMapFacts.delete_app_absent by done.
  cbn [JSMap.delete]. rewrite String.eqb_refl. by rewrite app_nil_r.
Qed.

(** X3. Registering or unregistering the name [n] does not change how a
    selector resolves unless the selector starts with [n] and a slash. *)
Theorem other_selectors_resolve_alike (q : Registry) (n : string)
    (h : CustomQueryHandler) (selector : string) :
  (forall rest, selector <> n +:+ "/" +:+ rest) ->
  _getQueryHandlerAndSelector selector (snd (_registerCustomQueryHandler n h q))
  = _getQueryHandlerAndSelector selector q
  /\ _getQueryHandlerAndSelector selector (unregister n q)
     = _getQueryHandlerAndSelector selector q.
Proof.
  intros Hother.
  destruct (JS.test_letters_slash selector) eqn:Htest.
  - destruct (JSFacts.test_letters_slash_split selector Htest)
      as (name & rest & -> & Hname).
    assert (Hne : n <> name).
    { intros ->. by apply (Hother rest). }
    change (name +:+ String "/"%char rest) with (name +:+ "/" +:+ rest).
    rewrite !resolve_named by done. split.
    + unfold _registerCustomQueryHandler.
      destruct (JSMap.get n q); [done|].
      destruct (negb (JS.test_letters_only n)); [done|].
      cbn [snd]. by rewrite get_set_other.
    + unfold _unregisterCustomQueryHandler.
      destruct (_ && _); [|done]. by rewrite get_delete_other.
  - unfold _getQueryHandlerAndSelector. rewrite Htest. done.
Qed.

(** X4. After any calls, unregistering a name leaves it in the registry
    exactly when it is built in; unregistering it a second time changes
    nothing; and a selector that names an unregistered custom engine fails
    to resolve with the unknown-engine error. *)
Theorem unregister_removes_custom_name (calls : list Call) (n : string) :
  let q' := unregister n (registry_after calls) in
  JSMap.has n q' = isBuiltInName n
  /\ unregister n q' = q'
  /\ (JS.test_letters_only n = true -> isBuiltInName n = false ->
      forall rest,
        _getQueryHandlerAndSelector (n +:+ "/" +:+ rest) q'
        = Thrown (UnknownEngineError n)).
Proof.
  intros q'. destruct (after_shape ariaHandler calls) as (customs & Hq & Hok & _).
  assert (Hhas : JSMap.has n q' = isBuiltInName n).
  { subst q'. rewrite Hq. destruct (isBuiltInName n) eqn:Hb.
    - rewrite unregister_builtin by done. unfold JSMap.has.
      rewrite JSMapFacts.get_app.
      by destruct (get_builtIn_Some ariaHandler n Hb) as [b ->].
    - rewrite unregister_custom by done. unfold JSMap.has.
      rewrite JSMapFacts.get_app, (get_builtIn_None ariaHandler n Hb).
      destruct Hok as [Hnd _]. by rewrite get_delete_same. }
  split; [done|]. split.
  - destruct (isBuiltInName n) eqn:Hb.
    + by apply unregister_builtin.
    + by apply unregister_absent.
  - intros Hv Hb rest. rewrite resolve_named by done.
    rewrite Hb in Hhas. unfold JSMap.has in Hhas.
    by destruct (JSMap.get n q').
Qed.

(** X5. On any registry, a registration is accepted exactly when the name
    is a non-empty run of letters that is not yet a key, and an accepted
    registration puts the adapted handler at the end of the registry. *)
Theorem register_accepts_exactly (q : Registry) (n : string)
    (h : CustomQueryHandler) :
  (fst (_registerCustomQueryHandler n h q) = Ok tt
   <-> JS.all_letters n = true /\ n <> "" /\ JSMap.has n q = false)
  /\ (fst (_registerCustomQueryHandler n h q) = Ok tt ->
      snd (_registerCustomQueryHandler n h q)
      = q ++ [(n, createInternalQueryHandler h)]).
Proof.
  unfold _registerCustomQueryHandler, JSMap.has.
  destruct (JSMap.get n q) eqn:Hget; cbn [fst snd].
  - split; [|discriminate]. split; [discriminate | by intros (_ & _ & ?)].
  - destruct (JS.test_letters_only n) eqn:Hv; cbn [negb fst snd].
    + apply JSFacts.test_letters_only_spec in Hv as [Hall Hne].
      split; [done|]. intros _. by apply JSMapFacts.set_absent.
    + split; [|discriminate]. split; [discriminate|].
      intros (Hall & Hne & _).
      assert (JS.test_letters_only n = true)
        by by apply JSFacts.test_letters_only_spec.
      congruence.
Qed.

(** X6. A selector resolves to the default handler, unchanged, when it
    has no slash at all, and when what precedes its first slash is empty or
    has a character that is not a letter; the registry plays no part. *)
Theorem selectors_without_engine_prefix (q : Registry) (pre rest : string) :
  JS.indexOf "/" pre = (-1)%Z ->
  _getQueryHandlerAndSelector pre q
  = Ok {| updatedSelector := pre; queryHandler := _defaultHandler |}
  /\ (JS.all_letters pre = false \/ pre = "" ->
      _getQueryHandlerAndSelector (pre +:+ "/" +:+ rest) q
      = Ok {| updatedSelector := pre +:+ "/" +:+ rest;
              queryHandler := _defaultHandler |}).
Proof.
  intros Hno. split.
  - unfold _getQueryHandlerAndSelector. by rewrite no_slash_no_prefix.
  - intros Hbad. unfold _getQueryHandlerAndSelector.
    destruct (JS.test_letters_slash (pre +:+ "/" +:+ rest)) eqn:Htest; [|done].
    exfalso.
    destruct (JSFacts.test_letters_slash_split _ Htest)
      as (name & rest' & Heq & Hname).
    apply JSFacts.test_letters_only_spec in Hname as [Hall Hne].
    assert (pre = name) as ->.
    { eapply first_slash_unique; [done | | exact Heq].
      apply JSFacts.indexOf_from_none. done. }
    destruct Hbad as [Hbad | Hbad]; congruence.
Qed.

End RegistryExtras.


(** ** More on the adapted handlers and on the consumers *)

Section BridgeExtras.

(** Resuming a generator that is suspended at its [yield] releases the
    handle it yielded, whatever the next probe gives. *)
Lemma resumed_pull_releases produce c0 it j0 k i w r g2 w2 :
  bridge_at produce c0 it j0 k (S i) w ->
  generator_next (generator_after it k (S i)) w = (r, g2, w2) ->
  heap w2 !! (k + i) = None
  /\ exists evs, journal w2 = journal w ++ Disposed (k + i) :: evs.
Proof.
  intros [Hit Hfresh Hbelow _].
  cbn [generator_after generator_next dispose snd elementHandleOf remoteObjectId].
  unfold generate_turn, evaluateHandle.
  cbn [heap fresh journal]. rewrite lookup_delete_ne by lia. rewrite Hit.
  cbn [nextValue]. destruct (produce (c0 + S i)) as [v|reason].
  - destruct (isNode v) eqn:Hv;
      cbn [asElement isElementHandle dispose snd heap fresh journal remoteObjectId];
      rewrite ?Hv; intros [= <- <- <-]; cbn [heap journal].
    + split.
      * rewrite lookup_insert_ne by lia. rewrite lookup_insert_ne by lia.
        apply lookup_delete_eq.
      * eexists. by rewrite <- app_assoc.
    + split.
      * rewrite lookup_delete_ne by lia. rewrite lookup_delete_ne by lia.
        rewrite lookup_insert_ne by lia. rewrite lookup_insert_ne by lia.
        apply lookup_delete_eq.
      * eexists. by rewrite <- !app_assoc.
  - intros [= <- <- <-]; cbn [heap journal]. split.
    + rewrite lookup_insert_ne by lia. apply lookup_delete_eq.
    + eexists. by rewrite <- app_assoc.
Qed.

(** [Iterable.map] over a sequence whose iterator throws after some nodes:
    the error leaves [map], and the iterator handle was not disposed. *)
Lemma map_throws produce c0 it j0 k {U} (f : JSHandle -> U) nodes reason :
  forall i w fuel,
  bridge_at produce c0 it j0 k i w ->
  (forall m node, nodes !! m = Some node ->
                  produce (c0 + i + m) = Normal (VNode node)) ->
  produce (c0 + i + length nodes) = Throw reason ->
  length nodes < fuel ->
  exists w',
    Iterable.map fuel (generator_after it k i) (fun h _ => f h) w
    = Some (Thrown {| message := reason |}, Completed, w')
    /\ journal w'
       = j0 ++ probe_events (remoteObjectId it) k (i + length nodes)
         ++ [EvalFailed (remoteObjectId it)]
    /\ is_Some (heap w' !! remoteObjectId it).
Proof.
  induction nodes as [|node nodes IH]; intros i w fuel Hat Hnodes Hthrow Hfuel.
  - cbn [length] in *. rewrite Nat.add_0_r in *.
    destruct fuel as [|fuel]; [lia|].
    destruct (pull_throws produce c0 it j0 k i w reason Hat Hthrow)
      as (w' & Hnext & Hj & Hlive).
    exists w'. cbn [Iterable.map]. by rewrite Hnext.
  - cbn [length] in *. destruct fuel as [|fuel]; [lia|].
    assert (Hnode : produce (c0 + i) = Normal (VNode node)).
    { rewrite <- (Nat.add_0_r (c0 + i)). by apply Hnodes. }
    destruct (pull_yields produce c0 it j0 k i w node Hat Hnode)
      as (w1 & Hnext & Hat1 & _).
    assert (Hnodes1 : forall m n, nodes !! m = Some n ->
                        produce (c0 + S i + m) = Normal (VNode n)).
    { intros m n Hm. replace (c0 + S i + m) with (c0 + i + S m) by lia.
      by apply Hnodes. }
    assert (Hthrow1 : produce (c0 + S i + length nodes) = Throw reason).
    { by replace (c0 + S i + length nodes) with (c0 + i + S (length nodes)) by lia. }
    destruct (IH (S i) w1 fuel Hat1 Hnodes1 Hthrow1) as (w' & Hmap & Hj & Hlive);
      [lia|].
    exists w'. cbn [Iterable.map]. rewrite Hnext, Hmap.
    replace (i + S (length nodes)) with (S i + length nodes) by lia. done.
Qed.

(** When the adapted [queryAll] returns, the root was live and the raw
    function returned an iterable. *)
Lemma queryAll_ok_inv raw element selector w g0 w0 :
  internal_queryAll raw element selector w = (Ok g0, w0) ->
  exists root iterable,
    heap w !! remoteObjectId element = Some root
    /\ raw root selector = Normal iterable /\ isIterable iterable = true.
Proof.
  unfold internal_queryAll, mbind, M_bind, mret, M_ret, evaluateHandle, applied.
  destruct (heap w !! remoteObjectId element) as [root|] eqn:Hroot; [|discriminate].
  destruct (raw root selector) as [v|reason] eqn:Hraw; [|discriminate].
  cbn [heap fresh journal remoteObjectId]. rewrite lookup_insert_eq.
  destruct v; cbn [getIterator]; try discriminate; intros _; by eexists root, _.
Qed.

(** X7. The adapted [queryAll] returns a generator exactly when the root
    handle is live and the raw function returns an iterable; it has then
    made two executions and disposed the iterable handle.  It throws in
    three cases: the root handle was released, the raw function throws (no
    handle is created in these two cases), or the raw function returns a
    value that is not iterable, and then the handle of that value was
    created and is left live. *)
Theorem queryAll_failure_modes (raw : RawQuery) (element : JSHandle)
    (selector : string) (w : World) :
  let f := fresh w in
  let el := remoteObjectId element in
  match internal_queryAll raw element selector w with
  | (Ok g, w') =>
      exists root iterable,
        heap w !! el = Some root
        /\ raw root selector = Normal iterable /\ isIterable iterable = true
        /\ g = SuspendedStart {| remoteObjectId := S f; isElementHandle := false |}
        /\ journal w' = journal w ++ [Evaluated el f; Evaluated f (S f); Disposed f]
        /\ heap w' !! f = None
  | (Thrown e, w') =>
      (heap w !! el = None /\ journal w' = journal w ++ [EvalFailed el])
      \/ (exists root,
            heap w !! el = Some root /\ raw root selector = Throw (message e)
            /\ journal w' = journal w ++ [EvalFailed el])
      \/ (exists root v,
            heap w !! el = Some root /\ raw root selector = Normal v
            /\ isIterable v = false
            /\ journal w' = journal w ++ [Evaluated el f; EvalFailed f]
            /\ heap w' !! f = Some v)
  end.
Proof.
  intros f el.
  unfold internal_queryAll, mbind, M_bind, mret, M_ret, evaluateHandle, applied.
  fold el. destruct (heap w !! el) as [root|] eqn:Hroot; [|by left].
  destruct (raw root selector) as [v|reason] eqn:Hraw.
  2:{ right; left. by exists root. }
  cbn [heap fresh journal remoteObjectId]. fold f. rewrite lookup_insert_eq.
  destruct v as [| |node|tag|p|p cur];
    cbn [getIterator dispose heap fresh journal remoteObjectId isNode].
  1-4: right; right; eexists root, _; rewrite <- app_assoc;
       rewrite lookup_insert_eq; done.
  all: eexists root, _; rewrite <- !app_assoc, lookup_delete_eq; done.
Qed.

(** X8. A handle yielded by the sequence is live, and refers to its node,
    until the consumer asks for the next value: the pull that follows
    disposes it, whether that pull yields, ends the sequence or throws. *)
Theorem yielded_handle_released_by_next_pull (raw : RawQuery)
    (element : JSHandle) (selector : string) (w : World) (root iterable : Value)
    (produce : nat -> Completion) (c : nat) (nodes : list nat) (a : nat) :
  heap w !! remoteObjectId element = Some root ->
  raw root selector = Normal iterable ->
  getIterator iterable = (Normal (VIterator produce c), iterable) ->
  List.map (fun m => produce (c + m)) (seq 0 (length nodes))
  = List.map (fun node => Normal (VNode node)) nodes ->
  produce (c + length nodes) = Normal (VNode a) ->
  let h := elementHandleOf (S (S (fresh w)) + length nodes) in
  exists g0 w0 ys g1 w1 g2 w2,
    internal_queryAll raw element selector w = (Ok g0, w0)
    /\ pulls (length nodes) g0 w0 = (ys, g1, w1)
    /\ length ys = length nodes
    /\ generator_next g1 w1 = (Ok (IterValue h), g2, w2)
    /\ heap w2 !! remoteObjectId h = Some (VNode a)
    /\ forall r g3 w3,
         generator_next g2 w2 = (r, g3, w3) ->
         heap w3 !! remoteObjectId h = None
         /\ exists evs,
              journal w3 = journal w2 ++ Disposed (remoteObjectId h) :: evs.
Proof.
  intros Hroot Hraw Hiter Hnodes Ha h.
  pose proof (produced_nodes produce c nodes Hnodes) as Hprod.
  destruct (queryAll_starts raw element selector w root iterable produce c
              Hroot Hraw Hiter) as (w0 & Hstart & Hat0).
  cbv zeta in Hstart, Hat0.
  set (k := S (S (fresh w))) in *.
  set (ith := {| remoteObjectId := S (fresh w); isElementHandle := false |}) in *.
  set (j0 := journal w ++ _) in Hat0.
  assert (Hprod0 : forall m node, nodes !! m = Some node ->
                     produce (c + 0 + m) = Normal (VNode node)).
  { intros m node Hm. rewrite Nat.add_0_r. by apply Hprod. }
  destruct (pulls_yield_all produce c ith j0 k nodes 0 w0 Hat0 Hprod0)
    as (w1 & Hpulls & Hat1).
  cbn [Nat.add] in Hpulls, Hat1.
  change (generator_after ith k 0) with (SuspendedStart ith) in Hpulls.
  destruct (pull_yields produce c ith j0 k (length nodes) w1 a Hat1 Ha)
    as (w2 & Hnext & Hat2 & Hlive & _).
  eexists _, w0, _, _, w1, _, w2.
  split; [exact Hstart|]. split; [exact Hpulls|].
  split; [by rewrite length_imap|]. split; [exact Hnext|]. split; [exact Hlive|].
  intros r g3 w3 Hnext3.
  exact (resumed_pull_releases produce c ith j0 k (length nodes) w2 r g3 w3
           Hat2 Hnext3).
Qed.

(** X9. [Iterable.first] over the sequence of [queryAll], when the first
    value is a node: it returns the handle of that node after three
    executions and one disposal, that of the iterable handle; the generator
    is closed, and the iterator handle stays live. *)
Theorem first_leaves_iterator_handle (raw : RawQuery) (element : JSHandle)
    (selector : string) (w : World) (root iterable : Value)
    (produce : nat -> Completion) (c : nat) (a : nat) :
  heap w !! remoteObjectId element = Some root ->
  raw root selector = Normal iterable ->
  getIterator iterable = (Normal (VIterator produce c), iterable) ->
  produce c = Normal (VNode a) ->
  let f := fresh w in
  exists g0 w0 w',
    internal_queryAll raw element selector w = (Ok g0, w0)
    /\ Iterable.first g0 w0
       = (Ok (Some (elementHandleOf (S (S f)))), Completed, w')
    /\ heap w' !! S (S f) = Some (VNode a)
    /\ journal w'
       = journal w ++ [Evaluated (remoteObjectId element) f; Evaluated f (S f);
                       Disposed f; Evaluated (S f) (S (S f))]
    /\ is_Some (heap w' !! S f).
Proof.
  intros Hroot Hraw Hiter Ha f.
  destruct (queryAll_starts raw element selector w root iterable produce c
              Hroot Hraw Hiter) as (w0 & Hstart & Hat0).
  cbv zeta in Hstart, Hat0. fold f in Hstart, Hat0.
  set (ith := {| remoteObjectId := S f; isElementHandle := false |}) in *.
  set (j0 := journal w ++ _) in Hat0.
  rewrite <- (Nat.add_0_r c) in Ha.
  destruct (pull_yields produce c ith j0 (S (S f)) 0 w0 a Hat0 Ha)
    as (w' & Hnext & [Hit _ _ _] & Hlive & Hj).
  destruct Hat0 as [_ _ _ Hj0].
  cbn [generator_after pending app] in Hnext, Hj, Hj0.
  unfold probe_events in Hj0. cbn [seq flat_map] in Hj0.
  rewrite !app_nil_r in Hj0. rewrite Nat.add_0_r in Hnext, Hj, Hlive.
  exists (SuspendedStart ith), w0, w'. split; [done|].
  unfold Iterable.first. rewrite Hnext. cbn [generator_return].
  split; [done|]. split; [done|]. split; [|by eexists].
  rewrite Hj, Hj0. subst j0. by rewrite <- app_assoc.
Qed.

(** X10. When the iterator throws after having produced the nodes of
    [nodes], [Iterable.map] over the sequence ends with that error and
    hands back none of the handles it received; one execution was made per
    node, plus two to start and the one that failed, and the iterator
    handle is live and was not disposed. *)
Theorem iterator_error_surfaces (raw : RawQuery) (element : JSHandle)
    (selector : string) (w : World) (root iterable : Value)
    (produce : nat -> Completion) (c : nat) (nodes : list nat)
    (reason : string) (fuel : nat) :
  heap w !! remoteObjectId element = Some root ->
  raw root selector = Normal iterable ->
  getIterator iterable = (Normal (VIterator produce c), iterable) ->
  List.map (fun m => produce (c + m)) (seq 0 (length nodes))
  = List.map (fun node => Normal (VNode node)) nodes ->
  produce (c + length nodes) = Throw reason ->
  length nodes < fuel ->
  exists g0 w0 w' evs,
    internal_queryAll raw element selector w = (Ok g0, w0)
    /\ Iterable.map fuel g0 (fun h _ => h) w0
       = Some (Thrown {| message := reason |}, Completed, w')
    /\ journal w' = journal w ++ evs
    /\ executions evs = length nodes + 3
    /\ disposals (S (fresh w)) evs = 0
    /\ is_Some (heap w' !! S (fresh w)).
Proof.
  intros Hroot Hraw Hiter Hnodes Hthrow Hfuel.
  pose proof (produced_nodes produce c nodes Hnodes) as Hprod.
  destruct (queryAll_starts raw element selector w root iterable produce c
              Hroot Hraw Hiter) as (w0 & Hstart & Hat0).
  cbv zeta in Hstart, Hat0.
  set (f := fresh w) in *.
  set (ith := {| remoteObjectId := S f; isElementHandle := false |}) in *.
  set (j0 := journal w ++ _) in Hat0.
  assert (Hprod0 : forall m node, nodes !! m = Some node ->
                     produce (c + 0 + m) = Normal (VNode node)).
  { intros m node Hm. rewrite Nat.add_0_r. by apply Hprod. }
  assert (Hthrow0 : produce (c + 0 + length nodes) = Throw reason)
    by by rewrite Nat.add_0_r.
  destruct (map_throws produce c ith j0 (S (S f)) (fun h => h) nodes reason 0 w0
              fuel Hat0 Hprod0 Hthrow0 Hfuel) as (w' & Hmap & Hj & Hlive).
  cbn [Nat.add remoteObjectId ith] in Hmap, Hj, Hlive.
  change (generator_after ith (S (S f)) 0) with (SuspendedStart ith) in Hmap.
  exists (SuspendedStart ith), w0, w'.
  exists ([Evaluated (remoteObjectId element) f; Evaluated f (S f); Disposed f]
          ++ probe_events (S f) (S (S f)) (length nodes) ++ [EvalFailed (S f)]).
  split; [done|]. split; [done|].
  split; [rewrite Hj; subst j0; by rewrite <- !app_assoc|].
  split; [|split; [|done]].
  - rewrite !executions_app, executions_probe. cbn [executions]. lia.
  - rewrite !disposals_app, disposals_probe. cbn [disposals].
    destruct (Nat.eqb_spec f (S f)); [lia|]. case_decide; lia.
Qed.

(** X11. [Iterable.reduce] with a callback that computes its result from
    the accumulator and the handle alone is the left fold of that callback
    over the handles that [Iterable.map] collects; both leave the same
    generator and the same world, and fail alike. *)
Theorem reduce_is_fold_of_map {U : Type} (f : U -> JSHandle -> U)
    (fuel : nat) (g : Generator) (initial : U) (w : World) :
  Iterable.reduce fuel g (fun acc h => mret (f acc h)) initial w
  = match Iterable.map fuel g (fun h _ => h) w with
    | Some (Ok hs, g', w') => Some (Ok (fold_left f hs initial), g', w')
    | Some (Thrown e, g', w') => Some (Thrown e, g', w')
    | None => None
    end.
Proof.
  revert g initial w. induction fuel as [|fuel IH]; intros g initial w; [done|].
  cbn [Iterable.reduce Iterable.map].
  destruct (generator_next g w) as [[[[h|]|e] g1] w1]; [|done|done].
  unfold mret at 1, M_ret at 1. rewrite IH.
  destruct (Iterable.map fuel g1 (fun h _ => h) w1) as [[[[hs|e] g2] w2]|]; done.
Qed.

(** X12. Whenever [Iterable.map] collects the handles of a sequence,
    [Iterable.first] on the same sequence returns the first of them, or
    [undefined] when there is none. *)
Theorem first_is_head_of_map (fuel : nat) (g : Generator) (w : World)
    (hs : list JSHandle) (g' : Generator) (w' : World) :
  Iterable.map fuel g (fun h _ => h) w = Some (Ok hs, g', w') ->
  exists g1 w1, Iterable.first g w = (Ok (head hs), g1, w1).
Proof.
  destruct fuel as [|fuel]; [discriminate|].
  cbn [Iterable.map]. unfold Iterable.first.
  destruct (generator_next g w) as [[[[h|]|e] g1] w1]; [| |discriminate].
  - destruct (Iterable.map fuel g1 (fun h _ => h) w1) as [[[[hs'|e] g2] w2]|];
      [|discriminate|discriminate].
    intros [= <- <- <-]. cbn [generator_return head]. by eexists _, _.
  - intros [= <- <- <-]. by eexists _, _.
Qed.

End BridgeExtras.

Section DefaultHandlerExtras.
Context `{Host}.

(** X13. On a root that is neither an element nor a document, the default
    handler does not query the DOM: its [queryOne] returns [null] and
    disposes the handle of the result, and its [queryAll] returns a
    sequence that ends at the first pull, all three handles it created
    being disposed once. *)
Theorem default_handler_on_other_roots (element : JSHandle) (selector : string)
    (w : World) (root : Value) :
  heap w !! remoteObjectId element = Some root ->
  instanceofElement root = false ->
  instanceofDocument root = false ->
  let f := fresh w in
  let el := remoteObjectId element in
  exists one all w1 g0 w0 w2,
    queryOne _defaultHandler = Some one
    /\ queryAll _defaultHandler = Some all
    /\ one element selector w = (Ok None, w1)
    /\ journal w1 = journal w ++ [Evaluated el f; Disposed f]
    /\ all element selector w = (Ok g0, w0)
    /\ generator_next g0 w0 = (Ok IterDone, Completed, w2)
    /\ journal w2
       = journal w ++ [Evaluated el f; Evaluated f (S f); Disposed f;
                       Evaluated (S f) (S (S f)); Disposed (S (S f));
                       Disposed (S f)].
Proof.
  intros Hroot He Hd f el.
  set (rawAll := fun element selector =>
         if instanceofElement element || instanceofDocument element
         then querySelectorAll element selector
         else Normal (VIterable (of_list []))).
  destruct (queryAll_starts rawAll element selector w root
              (VIterable (of_list [])) (of_list []) 0 Hroot)
    as (w0 & Hstart & Hat0).
  { subst rawAll. cbv beta. by rewrite He, Hd. }
  { done. }
  cbv zeta in Hstart, Hat0. fold f el in Hstart, Hat0.
  set (ith := {| remoteObjectId := S f; isElementHandle := false |}) in *.
  destruct (pull_stops (of_list []) 0 ith _ (S (S f)) 0 w0 VUndefined Hat0)
    as (w2 & Hnext & Hj & _); [done | done |].
  eexists _, _, _, _, w0, w2.
  split; [reflexivity|]. split; [reflexivity|]. split.
  { unfold internal_queryOne, mbind, M_bind, mret, M_ret, evaluateHandle, applied.
    rewrite Hroot, He, Hd. cbn [orb isNode asElement isElementHandle dispose].
    reflexivity. }
  split.
  { cbn [journal remoteObjectId]. fold f el. by rewrite <- app_assoc. }
  split; [exact Hstart|]. split; [exact Hnext|].
  rewrite Hj. unfold probe_events. cbn [seq flat_map app remoteObjectId ith].
  rewrite <- !app_assoc. cbn [app]. by rewrite !Nat.add_0_r.
Qed.

End DefaultHandlerExtras.


(** ** The frame dump *)

Section FrameDump.

Lemma Frame_ind_nested (P : Frame -> Prop) :
  (forall url name children,
      Forall P children -> P (mkFrame url name children)) ->
  forall frame, P frame.
Proof.
  intros Hstep. fix IH 1. intros [url name children]. apply Hstep.
  induction children as [|child children IHchildren]; constructor.
  - apply IH.
  - apply IHchildren.
Qed.

Lemma append_cons c a b : String c a +:+ b = String c (a +:+ b).
Proof. reflexivity. Qed.

Lemma dumpFrames_at_depth frame : forall depth ind,
  dumpFrames frame (Some (indent depth +:+ ind))
  = List.map (fun '(d, fr) => indent d +:+ ind +:+ frame_description fr)
             (frames_by_depth depth frame).
Proof.
  induction frame as [url name children IH] using Frame_ind_nested.
  intros depth ind. cbn [dumpFrames frames_by_depth default List.map app].
  cbn [frame_description]. unfold id. rewrite append_assoc. f_equal.
  induction IH as [|child children Hchild _ IHchildren]; [done|].
  cbn [flat_map]. rewrite List.map_app, <- IHchildren. f_equal.
  rewrite <- (Hchild (S depth) ind). cbn [indent].
  by rewrite append_assoc.
Qed.

(** X14. [dumpFrames] returns one line per frame of the tree, a frame
    before its children and the children in their order; the line of a
    frame at depth [d] is four spaces [d] times, then the indentation given
    to the call (nothing when it is omitted), then the description of the
    frame. *)
Theorem dumpFrames_lines (frame : Frame) (indentation : option string) :
  dumpFrames frame indentation
  = List.map (fun '(d, fr) =>
                indent d +:+ default "" indentation +:+ frame_description fr)
             (frames_by_depth 0 frame)
  /\ length (dumpFrames frame indentation) = length (frames_by_depth 0 frame)
  /\ head (dumpFrames frame indentation)
     = Some (default "" indentation +:+ frame_description frame).
Proof.
  assert (Heq : dumpFrames frame indentation
                = List.map (fun '(d, fr) =>
                     indent d +:+ default "" indentation +:+ frame_description fr)
                    (frames_by_depth 0 frame)).
  { rewrite <- (dumpFrames_at_depth frame 0 (default "" indentation)).
    destruct frame as [url name children], indentation as [ind|]; reflexivity. }
  split; [done|]. split.
  - by rewrite Heq, List.length_map.
  - by destruct frame.
Qed.

Lemma port_ahead_digit c c' rest tail :
  port_ahead (String c (String c' rest)) = Some tail -> isDigit c' = true.
Proof.
  cbn [port_ahead]. destruct rest as [|d2 [|d3 [|d4 [|c5 rest]]]]; try discriminate.
  destruct (isDigit c'); [done|].
  by rewrite !andb_false_r, ?andb_false_l.
Qed.

(** X15. In a URL whose text before the port has no digit, the port of
    four digits between a colon and a slash is replaced by [<PORT>], and
    what follows the slash is kept as it is. *)
Theorem replace_port_masks_first_port (pre d post : string) :
  all_chars (fun c => negb (isDigit c)) pre = true ->
  String.length d = 4 ->
  all_chars isDigit d = true ->
  replace_port (pre +:+ ":" +:+ d +:+ "/" +:+ post)
  = pre +:+ ":<PORT>/" +:+ post.
Proof.
  intros Hpre Hlen Hd.
  destruct d as [|d1 [|d2 [|d3 [|d4 [|d5 d]]]]]; try discriminate Hlen.
  cbn [all_chars] in Hd. rewrite !andb_true_iff in Hd.
  destruct Hd as (Hd1 & Hd2 & Hd3 & Hd4 & _).
  induction pre as [|c pre IH].
  - change (replace_port
              (String ":" (String d1 (String d2 (String d3 (String d4
                 (String "/" post))))))
            = ":<PORT>/" +:+ post).
    cbn [replace_port port_ahead]. rewrite Hd1, Hd2, Hd3, Hd4. reflexivity.
  - cbn [all_chars] in Hpre. apply andb_true_iff in Hpre as [Hc Hpre].
    rewrite !append_cons. cbn [replace_port].
    destruct (port_ahead _) as [tail|] eqn:Hport.
    + exfalso. destruct pre as [|c' pre].
      * change (port_ahead (String c (String ":" (String d1 (String d2
                  (String d3 (String d4 (String "/" post)))))))
                = Some tail) in Hport.
        apply port_ahead_digit in Hport. discriminate Hport.
      * rewrite append_cons in Hport. apply port_ahead_digit in Hport.
        cbn [all_chars] in Hpre. apply andb_true_iff in Hpre as [Hc' _].
        rewrite Hport in Hc'. discriminate Hc'.
    + f_equal. by apply IH.
Qed.

End FrameDump.

(** ** The piercing engine *)

Section PierceFacts.
Context (matches : nat -> string -> bool) (selector : string).

Lemma DomNode_ind_nested (P : DomNode -> Prop) :
  (forall id shadow children,
      (forall root', shadow = Some root' -> P root') ->
      Forall P children -> P (mkDomNode id shadow children)) ->
  forall node, P node.
Proof.
  intros Hstep. fix IH 1. intros [id shadow children].
  assert (Hchildren : Forall P children).
  { induction children as [|child children IHchildren]; constructor.
    - apply IH.
    - apply IHchildren. }
  destruct shadow as [root'|].
  - pose proof (IH root') as Hroot. apply Hstep; [|exact Hchildren].
    intros r [= <-]. exact Hroot.
  - apply Hstep; [|exact Hchildren]. intros r [=].
Qed.

Lemma head_app {A} (l1 l2 : list A) :
  head (l1 ++ l2) = match head l1 with Some x => Some x | None => head l2 end.
Proof. by destruct l1. Qed.

(** Once something was found, a walk changes nothing. *)
Lemma search_found node : forall isRoot x,
  search matches selector isRoot (Some x) node = Some x.
Proof.
  induction node as [id shadow children IHshadow IHchildren] using DomNode_ind_nested.
  intros isRoot x. cbn [search].
  assert (Hshadow : match shadow with
                    | Some root' => search matches selector true (Some x) root'
                    | None => Some x
                    end = Some x).
  { destruct shadow as [root'|]; [|done]. by apply IHshadow. }
  rewrite Hshadow. cbn [truthy negb]. rewrite andb_false_r. cbn [andb].
  clear. induction children as [|child children IH]; [done|]. apply IH.
Qed.

(** A walk that starts with nothing found finds the first value that
    [collect] yields. *)
Lemma search_none node : forall isRoot,
  search matches selector isRoot None node
  = head (collect matches selector isRoot node).
Proof.
  induction node as [id shadow children IHshadow IHchildren] using DomNode_ind_nested.
  intros isRoot. cbn [search collect].
  set (found1 := match shadow with
                 | Some root' => search matches selector true None root'
                 | None => None
                 end).
  assert (Hfound1 : found1 = head (match shadow with
                                   | Some root' => collect matches selector true root'
                                   | None => []
                                   end)).
  { subst found1. destruct shadow as [root'|]; [|done]. by apply IHshadow. }
  rewrite !head_app, <- Hfound1.
  assert (Hfold : forall found,
    fold_left (fun found child =>
                 if negb (truthy found)
                 then search matches selector false found child else found)
              children found
    = match found with
      | Some x => Some x
      | None => head (flat_map (collect matches selector false) children)
      end).
  { clear -IHchildren. intros found.
    induction IHchildren as [|child children Hchild _ IH] in found |- *.
    - by destruct found.
    - cbn [fold_left flat_map]. rewrite IH, head_app.
      destruct found as [x|]; cbn [truthy negb]; [done|].
      rewrite Hchild. by destruct (head _). }
  rewrite Hfold. destruct found1 as [x|]; cbn [truthy negb].
  - by rewrite andb_false_r.
  - rewrite andb_true_r. by destruct (negb isRoot && matches id selector).
Qed.

(** X16. [queryOne] of the piercing handler returns the first element that
    its [queryAll] yields, and [null] exactly when [queryAll] yields
    nothing. *)
Theorem pierce_queryOne_is_first_of_queryAll (element : DomNode) :
  pierce_queryOne matches selector element
  = head (pierce_queryAll matches selector element)
  /\ (pierce_queryOne matches selector element = None
      <-> pierce_queryAll matches selector element = []).
Proof.
  assert (Hhead : pierce_queryOne matches selector element
                  = head (pierce_queryAll matches selector element))
    by apply search_none.
  split; [done|]. rewrite Hhead.
  by destruct (pierce_queryAll matches selector element).
Qed.

Lemma filter_flat_map {A B} (p : B -> bool) (f : A -> list B) l :
  List.filter p (flat_map f l) = flat_map (fun x => List.filter p (f x)) l.
Proof.
  induction l as [|x l IH]; [done|].
  cbn [flat_map]. by rewrite List.filter_app, IH.
Qed.

Lemma collect_filter node : forall isRoot,
  collect matches selector isRoot node
  = List.filter (fun id => matches id selector) (candidates isRoot node).
Proof.
  induction node as [id shadow children IHshadow IHchildren] using DomNode_ind_nested.
  intros isRoot. cbn [collect candidates].
  rewrite !List.filter_app, filter_flat_map. f_equal; [|f_equal].
  - destruct shadow as [root'|]; [|done]. by apply IHshadow.
  - destruct isRoot; cbn [negb andb List.filter]; [done|].
    by destruct (matches id selector).
  - induction IHchildren as [|child children Hchild _ IH]; [done|].
    cbn [flat_map]. by rewrite Hchild, IH.
Qed.

(** X17. [queryAll] of the piercing handler yields exactly the nodes
    reached by the walk that match the selector, in the order of the walk:
    for each node the content of its shadow tree, then the node itself
    unless it is the root of its walker, then its descendants.  Every
    yielded node matches, and [queryOne] returns the first node of the walk
    that matches. *)
Theorem pierce_queryAll_is_filtered_walk (element : DomNode) :
  pierce_queryAll matches selector element
  = List.filter (fun id => matches id selector) (candidates true element)
  /\ Forall (fun id => matches id selector = true)
            (pierce_queryAll matches selector element)
  /\ pierce_queryOne matches selector element
     = List.find (fun id => matches id selector) (candidates true element).
Proof.
  assert (Heq : pierce_queryAll matches selector element
                = List.filter (fun id => matches id selector)
                              (candidates true element))
    by apply collect_filter.
  split; [done|]. split.
  - rewrite Heq. apply Forall_forall. intros id Hid.
    apply list_elem_of_In, List.filter_In in Hid. by destruct Hid.
  - unfold pierce_queryOne. rewrite search_none.
    fold (pierce_queryAll matches selector element). rewrite Heq.
    generalize (candidates true element). intros l.
    induction l as [|x l IH]; [done|]. cbn [List.filter List.find].
    by destruct (matches x selector).
Qed.

End PierceFacts.


(** ** What becomes of the handles that a consumer collects *)

Section CollectedHandles.
Context (produce : nat -> Completion) (c0 : nat) (it : JSHandle)
        (j0 : list Event) (k : nat).

(** A pull leaves released what was released, and releases the handle
    that was yielded last. *)
Lemma pull_frame i w r g' w' j :
  bridge_at produce c0 it j0 k i w ->
  generator_next (generator_after it k i) w = (r, g', w') ->
  k <= j -> j < k + i ->
  heap w !! j = None \/ S j = k + i ->
  heap w' !! j = None.
Proof.
  intros [Hit Hfresh Hbelow _] Hnext Hk Hj Hdead.
  destruct i as [|i]; [lia|].
  revert Hnext.
  cbn [generator_after generator_next dispose snd elementHandleOf remoteObjectId].
  unfold generate_turn, evaluateHandle.
  cbn [heap fresh journal]. rewrite lookup_delete_ne by lia. rewrite Hit.
  assert (Hgone : delete (k + i) (heap w) !! j = None).
  { destruct (decide (j = k + i)) as [->|Hne].
    - apply lookup_delete_eq.
    - rewrite lookup_delete_ne by lia. destruct Hdead; [done | lia]. }
  cbn [nextValue]. destruct (produce (c0 + S i)) as [v|reason].
  - destruct (isNode v) eqn:Hv;
      cbn [asElement isElementHandle dispose snd heap fresh journal remoteObjectId];
      rewrite ?Hv; intros [= <- <- <-]; cbn [heap].
    + rewrite lookup_insert_ne by lia. by rewrite lookup_insert_ne by lia.
    + rewrite lookup_delete_ne by lia. rewrite lookup_delete_ne by lia.
      rewrite lookup_insert_ne by lia. by rewrite lookup_insert_ne by lia.
  - intros [= <- <- <-]; cbn [heap]. by rewrite lookup_insert_ne by lia.
Qed.

(** Whatever the iterator produces, the handles that [Iterable.map]
    collects are numbered in a row, and none of the result handles made
    during the iteration is live when [map] returns. *)
Lemma map_releases fuel : forall i w hs g' w',
  bridge_at produce c0 it j0 k i w ->
  (forall j, k <= j -> S j < k + i -> heap w !! j = None) ->
  Iterable.map fuel (generator_after it k i) (fun h _ => h) w
  = Some (Ok hs, g', w') ->
  hs = List.map elementHandleOf (seq (k + i) (length hs))
  /\ g' = Completed
  /\ fresh w' = S (k + i + length hs)
  /\ forall j, k <= j -> j < fresh w' -> heap w' !! j = None.
Proof.
  induction fuel as [|fuel IH]; intros i w hs g' w' Hat Hdead Hmap;
    [discriminate|].
  cbn [Iterable.map] in Hmap.
  destruct (produce (c0 + i)) as [v|reason] eqn:Hprod.
  - destruct (isNode v) eqn:Hv.
    + destruct v as [| |node| | |]; try discriminate Hv.
      destruct (pull_yields produce c0 it j0 k i w node Hat Hprod)
        as (w1 & Hnext & Hat1 & _).
      rewrite Hnext in Hmap.
      destruct (Iterable.map fuel (generator_after it k (S i)) (fun h _ => h) w1)
        as [[[[hs'|e] g2] w2]|] eqn:Hrec; try discriminate Hmap.
      injection Hmap as <- <- <-.
      destruct (IH (S i) w1 hs' g2 w2 Hat1) as (Hhs & Hg & Hfresh & Hall);
        [|done|].
      { intros j Hk Hj. eapply pull_frame; [exact Hat | exact Hnext | lia | lia |].
        destruct (decide (S j = k + i)); [by right | left; apply Hdead; lia]. }
      cbn [length seq List.map]. split; [|split; [done|split]].
      * f_equal. rewrite Hhs at 1. f_equal. f_equal. lia.
      * rewrite Hfresh. lia.
      * exact Hall.
    + destruct (pull_stops produce c0 it j0 k i w v Hat Hprod Hv)
        as (w1 & Hnext & _ & _ & Hprobe & Hfresh).
      rewrite Hnext in Hmap. injection Hmap as <- <- <-.
      cbn [length seq List.map]. split; [done|]. split; [done|].
      split; [rewrite Hfresh; lia|].
      intros j Hk Hj. rewrite Hfresh in Hj.
      destruct (decide (j = k + i)) as [->|Hne]; [done|].
      eapply pull_frame; [exact Hat | exact Hnext | lia | lia |].
      destruct (decide (S j = k + i)); [by right | left; apply Hdead; lia].
  - destruct (pull_throws produce c0 it j0 k i w reason Hat Hprod)
      as (w1 & Hnext & _).
    rewrite Hnext in Hmap. discriminate Hmap.
Qed.

End CollectedHandles.

Section CollectedHandlesClaim.

Lemma iterable_has_iterator v :
  isIterable v = true ->
  exists produce c, getIterator v = (Normal (VIterator produce c), v).
Proof. destruct v; try discriminate; intros _; by eexists _, _. Qed.

(** X18. Whatever the raw [queryAll] returns: when [Iterable.map] collects
    the handles of the sequence returned by the adapted [queryAll], every
    collected handle is an element handle, and every one of them has been
    released by the bridge by the time [map] returns. *)
Theorem collected_handles_are_released (raw : RawQuery) (element : JSHandle)
    (selector : string) (w : World) (g0 : Generator) (w0 : World)
    (fuel : nat) (hs : list JSHandle) (g' : Generator) (w' : World) :
  internal_queryAll raw element selector w = (Ok g0, w0) ->
  Iterable.map fuel g0 (fun h _ => h) w0 = Some (Ok hs, g', w') ->
  g' = Completed
  /\ Forall (fun h => asElement h = Some h
                      /\ heap w' !! remoteObjectId h = None) hs.
Proof.
  intros Hstart Hmap.
  destruct (queryAll_ok_inv raw element selector w g0 w0 Hstart)
    as (root & iterable & Hroot & Hraw & Hiter).
  destruct (iterable_has_iterator iterable Hiter) as (produce & c & Hget).
  destruct (queryAll_starts raw element selector w root iterable produce c
              Hroot Hraw Hget) as (w0' & Hstart' & Hat0).
  cbv zeta in Hstart', Hat0. rewrite Hstart in Hstart'.
  injection Hstart' as -> <-.
  set (ith := {| remoteObjectId := S (fresh w); isElementHandle := false |}) in *.
  set (j0 := journal w ++ _) in Hat0.
  destruct (map_releases produce c ith j0 (S (S (fresh w))) fuel 0 w0 hs g' w'
              Hat0) as (Hhs & Hg & Hfresh & Hall); [intros j; lia | exact Hmap |].
  split; [done|]. rewrite Hhs. apply Forall_forall. intros h Hh.
  apply list_elem_of_In, List.in_map_iff in Hh as (id & <- & Hid).
  apply List.in_seq in Hid. split; [done|].
  cbn [elementHandleOf remoteObjectId]. apply Hall; lia.
Qed.

End CollectedHandlesClaim.

(** ** Disposal on each way out of the bridge *)

Section DisposalByExitPath.

(** The journal of a bridge that is suspended after [i] values: every
    result handle was created, and every one but the last was disposed
    once. *)
Lemma suspended_journal produce c0 it j0 k i w :
  bridge_at produce c0 it j0 k i w ->
  exists evs,
    journal w = j0 ++ evs
    /\ created evs = seq k i
    /\ forall h, disposals h evs = if decide (k <= h /\ S h < k + i) then 1 else 0.
Proof.
  intros [_ _ _ Hj]. destruct i as [|i].
  - exists []. cbn [generator_after pending] in Hj. unfold probe_events in Hj.
    cbn [seq flat_map] in Hj. rewrite !app_nil_r in Hj.
    split; [by rewrite app_nil_r|]. split; [done|].
    intros h. cbn [disposals]. case_decide; [lia | done].
  - exists (probe_events (remoteObjectId it) k i
            ++ [Evaluated (remoteObjectId it) (k + i)]).
    cbn [generator_after pending elementHandleOf remoteObjectId] in Hj.
    rewrite probe_events_S in Hj. split; [|split].
    + apply (app_inv_tail [Disposed (k + i)]). rewrite Hj, <- !app_assoc. done.
    + rewrite created_app, created_probe, seq_S. done.
    + intros h. rewrite disposals_app, disposals_probe. cbn [disposals].
      repeat case_decide; lia.
Qed.

(** C2, as amended.  On a live root, every handle created by the bridge,
    that is the iterable handle, the iterator handle and the result handle
    of each probe, is disposed at most once on every way out, and exactly
    once but for the handles named here.  When the raw function throws, no
    handle is created.  When its result is not iterable, the iterable
    handle is not disposed.  When the consumer abandons the sequence after
    it received some values, the iterator handle and the result handle
    yielded last are not disposed.  When the sequence is read to its end,
    there is no exception.  When a probe of the iterator fails, the
    iterator handle is not disposed. *)
Theorem bridge_disposals_on_every_exit_path (raw : RawQuery)
    (element : JSHandle) (selector : string) (w : World) (root : Value) :
  heap w !! remoteObjectId element = Some root ->
  let f := fresh w in
  let el := remoteObjectId element in
  (forall reason,
      raw root selector = Throw reason ->
      exists w' evs,
        internal_queryAll raw element selector w
        = (Thrown {| message := reason |}, w')
        /\ journal w' = journal w ++ evs
        /\ created evs = [])
  /\ (forall v,
        raw root selector = Normal v -> isIterable v = false ->
        exists e w' evs,
          internal_queryAll raw element selector w = (Thrown e, w')
          /\ journal w' = journal w ++ evs
          /\ created evs = [f]
          /\ disposals f evs = 0)
  /\ (forall iterable produce c nodes,
        raw root selector = Normal iterable ->
        getIterator iterable = (Normal (VIterator produce c), iterable) ->
        List.map (fun m => produce (c + m)) (seq 0 (length nodes))
        = List.map (fun node => Normal (VNode node)) nodes ->
        exists g0 w0,
          internal_queryAll raw element selector w = (Ok g0, w0)
          /\ (exists ys g w' evs,
                pulls (length nodes) g0 w0 = (ys, g, w')
                /\ length ys = length nodes
                /\ generator_return g w' = (Completed, w')
                /\ journal w' = journal w ++ evs
                /\ created evs = seq f (length nodes + 2)
                /\ forall h, h ∈ created evs ->
                     disposals h evs
                     = if decide (h = S f \/ h = S f + length nodes)
                       then 0 else 1)
          /\ (forall v fuel,
                produce (c + length nodes) = Normal v -> isNode v = false ->
                length nodes < fuel ->
                exists hs w' evs,
                  Iterable.map fuel g0 (fun h _ => h) w0
                  = Some (Ok hs, Completed, w')
                  /\ length hs = length nodes
                  /\ journal w' = journal w ++ evs
                  /\ created evs = seq f (length nodes + 3)
                  /\ disposed_exactly_once evs)
          /\ (forall reason fuel,
                produce (c + length nodes) = Throw reason ->
                length nodes < fuel ->
                exists w' evs,
                  Iterable.map fuel g0 (fun h _ => h) w0
                  = Some (Thrown {| message := reason |}, Completed, w')
                  /\ journal w' = journal w ++ evs
                  /\ created evs = seq f (length nodes + 2)
                  /\ forall h, h ∈ created evs ->
                       disposals h evs = if decide (h = S f) then 0 else 1)).
Proof.
  intros Hroot f el. split; [|split].
  - intros reason Hraw.
    unfold internal_queryAll, mbind, M_bind, evaluateHandle, applied.
    rewrite Hroot, Hraw. eexists _, [EvalFailed el]. done.
  - intros v Hraw Hv.
    unfold internal_queryAll, mbind, M_bind, evaluateHandle, applied.
    rewrite Hroot, Hraw. cbn [heap fresh journal remoteObjectId].
    rewrite lookup_insert_eq.
    destruct v; try discriminate Hv; cbn [getIterator];
      eexists _, _, [Evaluated el f; EvalFailed f];
      (split; [reflexivity|]); cbn [journal];
      by rewrite <- app_assoc.
  - intros iterable produce c nodes Hraw Hiter Hnodes.
    pose proof (produced_nodes produce c nodes Hnodes) as Hprod.
    destruct (queryAll_starts raw element selector w root iterable produce c
                Hroot Hraw Hiter) as (w0 & Hstart & Hat0).
    cbv zeta in Hstart, Hat0. fold f el in Hstart, Hat0.
    set (ith := {| remoteObjectId := S f; isElementHandle := false |}) in *.
    set (j0 := journal w ++ _) in Hat0.
    assert (Hprod0 : forall m node, nodes !! m = Some node ->
                       produce (c + 0 + m) = Normal (VNode node)).
    { intros m node Hm. rewrite Nat.add_0_r. by apply Hprod. }
    exists (SuspendedStart ith), w0. split; [done|]. split; [|split].
    + destruct (pulls_yield_all produce c ith j0 (S (S f)) nodes 0 w0 Hat0 Hprod0)
        as (w' & Hpulls & Hat').
      cbn [Nat.add] in Hpulls, Hat'.
      change (generator_after ith (S (S f)) 0) with (SuspendedStart ith) in Hpulls.
      destruct (suspended_journal produce c ith j0 (S (S f)) (length nodes) w' Hat')
        as (evs & Hj & Hcreated & Hdisp).
      eexists _, _, w',
        ([Evaluated el f; Evaluated f (S f); Disposed f] ++ evs).
      split; [exact Hpulls|]. split; [by rewrite length_imap|].
      split; [reflexivity|].
      split; [rewrite Hj; subst j0; by rewrite <- app_assoc|].
      assert (Hall : created ([Evaluated el f; Evaluated f (S f); Disposed f] ++ evs)
                     = seq f (length nodes + 2)).
      { rewrite created_app, Hcreated. cbn [created].
        replace (length nodes + 2) with (S (S (length nodes))) by lia.
        reflexivity. }
      split; [exact Hall|].
      intros h Hh. rewrite Hall in Hh. apply elem_of_seq in Hh.
      rewrite disposals_app, Hdisp. cbn [disposals].
      destruct (Nat.eqb_spec f h); repeat case_decide; lia.
    + intros v fuel Hv Hnot Hfuel.
      assert (Hv0 : produce (c + 0 + length nodes) = Normal v)
        by by rewrite Nat.add_0_r.
      destruct (map_drains produce c ith j0 (S (S f)) (fun h => h) nodes v 0 w0
                  fuel Hat0 Hprod0 Hv0 Hnot Hfuel) as (w' & Hmap & Hj & _ & _).
      cbn [Nat.add remoteObjectId ith] in Hmap, Hj.
      change (generator_after ith (S (S f)) 0) with (SuspendedStart ith) in Hmap.
      eexists _, w',
        ([Evaluated el f; Evaluated f (S f); Disposed f]
         ++ probe_events (S f) (S (S f)) (S (length nodes)) ++ [Disposed (S f)]).
      split; [exact Hmap|]. split; [by rewrite length_imap|].
      split; [rewrite Hj; subst j0; by rewrite <- !app_assoc|].
      assert (Hall :
        created ([Evaluated el f; Evaluated f (S f); Disposed f]
                 ++ probe_events (S f) (S (S f)) (S (length nodes))
                 ++ [Disposed (S f)])
        = seq f (length nodes + 3)).
      { rewrite !created_app, created_probe. cbn [created]. rewrite app_nil_r.
        replace (length nodes + 3) with (2 + S (length nodes)) by lia.
        reflexivity. }
      split; [exact Hall|].
      intros h Hh. rewrite Hall in Hh. apply elem_of_seq in Hh.
      rewrite !disposals_app, disposals_probe. cbn [disposals].
      destruct (Nat.eqb_spec f h), (Nat.eqb_spec (S f) h); case_decide; lia.
    + intros reason fuel Hthrow Hfuel.
      assert (Hthrow0 : produce (c + 0 + length nodes) = Throw reason)
        by by rewrite Nat.add_0_r.
      destruct (map_throws produce c ith j0 (S (S f)) (fun h => h) nodes reason 0
                  w0 fuel Hat0 Hprod0 Hthrow0 Hfuel) as (w' & Hmap & Hj & _).
      cbn [Nat.add remoteObjectId ith] in Hmap, Hj.
      change (generator_after ith (S (S f)) 0) with (SuspendedStart ith) in Hmap.
      exists w',
        ([Evaluated el f; Evaluated f (S f); Disposed f]
         ++ probe_events (S f) (S (S f)) (length nodes) ++ [EvalFailed (S f)]).
      split; [exact Hmap|].
      split; [rewrite Hj; subst j0; by rewrite <- !app_assoc|].
      assert (Hall :
        created ([Evaluated el f; Evaluated f (S f); Disposed f]
                 ++ probe_events (S f) (S (S f)) (length nodes)
                 ++ [EvalFailed (S f)])
        = seq f (length nodes + 2)).
      { rewrite !created_app, created_probe. cbn [created]. rewrite app_nil_r.
        replace (length nodes + 2) with (2 + length nodes) by lia.
        reflexivity. }
      split; [exact Hall|].
      intros h Hh. rewrite Hall in Hh. apply elem_of_seq in Hh.
      rewrite !disposals_app, disposals_probe. cbn [disposals].
      destruct (Nat.eqb_spec f h); repeat case_decide; lia.
Qed.

End DisposalByExitPath.

(** ** Instances of the further properties *)

Section ExtraInstances.

(** ["custom"] registered on the registry at load time and unregistered. *)
Lemma register_unregister_round_trip_witness :
  fst (@_registerCustomQueryHandler Sample.host "custom" Sample.handler
         (queryHandlers0 Sample.aria)) = Ok tt
  /\ _unregisterCustomQueryHandler Sample.aria "custom"
       (snd (_registerCustomQueryHandler "custom" Sample.handler
               (queryHandlers0 Sample.aria)))
     = queryHandlers0 Sample.aria.
Proof.
  exact (@register_unregister_round_trip Sample.host Sample.aria
           (queryHandlers0 Sample.aria) "custom" Sample.handler
           eq_refl eq_refl eq_refl).
Defined.

(** Registering ["custom"] does not change how ["pierce/x"] resolves. *)
Lemma other_selectors_resolve_alike_witness :
  _getQueryHandlerAndSelector "pierce/x"
    (snd (@_registerCustomQueryHandler Sample.host "custom" Sample.handler
            (queryHandlers0 Sample.aria)))
  = _getQueryHandlerAndSelector "pierce/x" (queryHandlers0 Sample.aria)
  /\ _getQueryHandlerAndSelector "pierce/x"
       (_unregisterCustomQueryHandler Sample.aria "custom"
          (queryHandlers0 Sample.aria))
     = _getQueryHandlerAndSelector "pierce/x" (queryHandlers0 Sample.aria).
Proof.
  apply (@other_selectors_resolve_alike Sample.host Sample.aria
           (queryHandlers0 Sample.aria) "custom" Sample.handler "pierce/x").
  intros rest Heq. discriminate Heq.
Defined.

(** ["div.a"] and ["div.a/b"] go to the default handler. *)
Lemma selectors_without_engine_prefix_witness :
  _getQueryHandlerAndSelector "div.a" (queryHandlers0 Sample.aria)
  = Ok {| updatedSelector := "div.a";
          queryHandler := @_defaultHandler Sample.host |}
  /\ _getQueryHandlerAndSelector ("div.a" +:+ "/" +:+ "b")
       (queryHandlers0 Sample.aria)
     = Ok {| updatedSelector := "div.a" +:+ "/" +:+ "b";
             queryHandler := @_defaultHandler Sample.host |}.
Proof.
  destruct (@selectors_without_engine_prefix Sample.host
              (queryHandlers0 Sample.aria) "div.a" "b" eq_refl) as [Hbare Hslash].
  split; [exact Hbare | exact (Hslash (or_introl eq_refl))].
Defined.

(** Over [a, b, c]: the handle 5 of [c] is live when it is yielded and is
    released by the pull that follows. *)
Lemma yielded_handle_released_by_next_pull_witness :
  exists g0 w0 ys g1 w1 g2 w2,
    internal_queryAll Sample.abc Sample.root "x" Sample.world = (Ok g0, w0)
    /\ pulls 2 g0 w0 = (ys, g1, w1)
    /\ length ys = 2
    /\ generator_next g1 w1 = (Ok (IterValue (elementHandleOf 5)), g2, w2)
    /\ heap w2 !! 5 = Some (VNode 3)
    /\ forall r g3 w3,
         generator_next g2 w2 = (r, g3, w3) ->
         heap w3 !! 5 = None
         /\ exists evs, journal w3 = journal w2 ++ Disposed 5 :: evs.
Proof.
  exact (yielded_handle_released_by_next_pull
           Sample.abc Sample.root "x" Sample.world (VNode 0)
           (VIterable (of_list [VNode 1; VNode 2; VNode 3]))
           (of_list [VNode 1; VNode 2; VNode 3]) 0 [1; 2] 3
           eq_refl eq_refl eq_refl eq_refl eq_refl).
Defined.

(** [Iterable.first] over [a, b, c]. *)
Lemma first_leaves_iterator_handle_witness :
  exists g0 w0 w',
    internal_queryAll Sample.abc Sample.root "x" Sample.world = (Ok g0, w0)
    /\ Iterable.first g0 w0 = (Ok (Some (elementHandleOf 3)), Completed, w')
    /\ heap w' !! 3 = Some (VNode 1)
    /\ journal w'
       = journal Sample.world
         ++ [Evaluated 0 1; Evaluated 1 2; Disposed 1; Evaluated 2 3]
    /\ is_Some (heap w' !! 2).
Proof.
  exact (first_leaves_iterator_handle
           Sample.abc Sample.root "x" Sample.world (VNode 0)
           (VIterable (of_list [VNode 1; VNode 2; VNode 3]))
           (of_list [VNode 1; VNode 2; VNode 3]) 0 1
           eq_refl eq_refl eq_refl eq_refl).
Defined.

(** An iterator that produces two nodes and then throws. *)
Lemma iterator_error_surfaces_witness :
  let produce := fun i => if i <? 2 then Normal (VNode (S i)) else Throw "boom" in
  let raw : RawQuery := fun _ _ => Normal (VIterable produce) in
  exists g0 w0 w' evs,
    internal_queryAll raw Sample.root "x" Sample.world = (Ok g0, w0)
    /\ Iterable.map 3 g0 (fun h _ => h) w0
       = Some (Thrown {| message := "boom" |}, Completed, w')
    /\ journal w' = journal Sample.world ++ evs
    /\ executions evs = 5
    /\ disposals 2 evs = 0
    /\ is_Some (heap w' !! 2).
Proof.
  intros produce raw.
  exact (iterator_error_surfaces raw Sample.root "x" Sample.world (VNode 0)
           (VIterable produce) produce 0 [1; 2] "boom" 3
           eq_refl eq_refl eq_refl eq_refl eq_refl (le_n 3)).
Defined.

(** The sequence over [a, b, c] once [queryAll] has returned it. *)
Lemma first_is_head_of_map_witness :
  let g0 := SuspendedStart {| remoteObjectId := 2; isElementHandle := false |} in
  let w0 := {| heap := {[ 0 := VNode 0;
                         2 := VIterator (of_list [VNode 1; VNode 2; VNode 3]) 0 ]};
               fresh := 3; journal := [] |} in
  exists g1 w1, Iterable.first g0 w0 = (Ok (Some (elementHandleOf 3)), g1, w1).
Proof.
  intros g0 w0.
  exact (first_is_head_of_map 4 g0 w0
           [elementHandleOf 3; elementHandleOf 4; elementHandleOf 5] Completed
           (match Iterable.map 4 g0 (fun h _ => h) w0 with
            | Some (_, _, w') => w'
            | None => w0
            end)
           eq_refl).
Defined.

(** The default handler on a root that is a plain object. *)
Lemma default_handler_on_other_roots_witness :
  let w := {| heap := {[ 0 := VOther 7 ]}; fresh := 1; journal := [] |} in
  exists one all w1 g0 w0 w2,
    queryOne (@_defaultHandler Sample.host) = Some one
    /\ queryAll (@_defaultHandler Sample.host) = Some all
    /\ one Sample.root "div" w = (Ok None, w1)
    /\ journal w1 = [Evaluated 0 1; Disposed 1]
    /\ all Sample.root "div" w = (Ok g0, w0)
    /\ generator_next g0 w0 = (Ok IterDone, Completed, w2)
    /\ journal w2
       = [Evaluated 0 1; Evaluated 1 2; Disposed 1;
          Evaluated 2 3; Disposed 3; Disposed 2].
Proof.
  intros w.
  exact (@default_handler_on_other_roots Sample.host Sample.root "div" w
           (VOther 7) eq_refl eq_refl eq_refl).
Defined.

(** The URL of a test page. *)
Lemma replace_port_masks_first_port_witness :
  replace_port ("http://localhost" +:+ ":" +:+ "8907" +:+ "/" +:+ "frames/frame.html")
  = "http://localhost" +:+ ":<PORT>/" +:+ "frames/frame.html".
Proof.
  exact (replace_port_masks_first_port "http://localhost" "8907"
           "frames/frame.html" eq_refl eq_refl eq_refl).
Defined.

(** The handles 3, 4 and 5 collected over [a, b, c]. *)
Lemma collected_handles_are_released_witness :
  let g0 := SuspendedStart {| remoteObjectId := 2; isElementHandle := false |} in
  let w0 := snd (internal_queryAll Sample.abc Sample.root "x" Sample.world) in
  let w' := match Iterable.map 4 g0 (fun h _ => h) w0 with
            | Some (_, _, w') => w'
            | None => w0
            end in
  Forall (fun h => asElement h = Some h /\ heap w' !! remoteObjectId h = None)
         [elementHandleOf 3; elementHandleOf 4; elementHandleOf 5].
Proof.
  intros g0 w0 w'.
  exact (proj2 (collected_handles_are_released Sample.abc Sample.root "x"
                  Sample.world g0 w0 4
                  [elementHandleOf 3; elementHandleOf 4; elementHandleOf 5]
                  Completed w' eq_refl eq_refl)).
Defined.

(** [queryOne] on the sample root: a raw function that returns a node
    gives the handle 1 of that node, and one that returns [null] gives
    [null] after disposing the handle 1. *)
Lemma queryOne_returns_elements_only_witness :
  (exists w',
     internal_queryOne Sample.one Sample.root "x" Sample.world
     = (Ok (Some (elementHandleOf 1)), w')
     /\ asElement (elementHandleOf 1) = Some (elementHandleOf 1)
     /\ heap w' !! 1 = Some (VNode 1)
     /\ journal w' = [Evaluated 0 1])
  /\ (exists w',
        internal_queryOne Sample.nothing Sample.root "x" Sample.world
        = (Ok None, w')
        /\ heap w' !! 1 = None
        /\ journal w' = [Evaluated 0 1; Disposed 1]).
Proof.
  split.
  - exact (proj1 (proj2 (queryOne_returns_elements_only
                           Sample.one Sample.root "x" Sample.world))
                 (VNode 0) 1 eq_refl eq_refl).
  - exact (proj1 (proj2 (proj2 (queryOne_returns_elements_only
                                  Sample.nothing Sample.root "x" Sample.world)))
                 (VNode 0) VNull eq_refl eq_refl eq_refl).
Defined.

(** The sequence over [a, b, c]: abandoned after its three values, the
    iterator handle 2 and the last result handle 5 are not disposed and the
    handles 1, 3 and 4 are disposed once; read to its end, the six handles
    are disposed once each. *)
Lemma bridge_disposals_on_every_exit_path_witness :
  exists g0 w0,
    internal_queryAll Sample.abc Sample.root "x" Sample.world = (Ok g0, w0)
    /\ (exists ys g w' evs,
          pulls 3 g0 w0 = (ys, g, w')
          /\ length ys = 3
          /\ generator_return g w' = (Completed, w')
          /\ journal w' = journal Sample.world ++ evs
          /\ created evs = [1; 2; 3; 4; 5]
          /\ forall h, h ∈ created evs ->
               disposals h evs = if decide (h = 2 \/ h = 5) then 0 else 1)
    /\ (exists hs w' evs,
          Iterable.map 4 g0 (fun h _ => h) w0 = Some (Ok hs, Completed, w')
          /\ length hs = 3
          /\ journal w' = journal Sample.world ++ evs
          /\ created evs = [1; 2; 3; 4; 5; 6]
          /\ disposed_exactly_once evs).
Proof.
  destruct (bridge_disposals_on_every_exit_path
              Sample.abc Sample.root "x" Sample.world (VNode 0) eq_refl)
    as (_ & _ & Hiterable).
  destruct (Hiterable (VIterable (of_list [VNode 1; VNode 2; VNode 3]))
              (of_list [VNode 1; VNode 2; VNode 3]) 0 [1; 2; 3]
              eq_refl eq_refl eq_refl)
    as (g0 & w0 & Hstart & Habandoned & Hread & _).
  exists g0, w0. split; [exact Hstart|]. split; [exact Habandoned|].
  exact (Hread VUndefined 4 eq_refl eq_refl (le_n 4)).
Defined.

End ExtraInstances.
